(** * anki-cards: Markdown notes to Anki packages

    A shallow embedding of [anki_cards/model_from_yaml.py],
    [anki_cards/model.py] and [anki_cards/main.py], and the properties of
    the schema validation, the card extraction, the deck naming and the
    package builder that the specification states.

    Conventions.
    - Python [str] is [string], read as ASCII/UTF-8 bytes.  The patterns
      of the source are compiled for [str], where [\s] and [re.IGNORECASE]
      follow Unicode: [\s] also matches blanks such as U+0085, U+00A0 and
      U+2028, and under IGNORECASE the letters s, k and i also match
      U+017F, U+212A and U+0130/U+0131.  The matchers below are exact on
      ASCII text ([is_ascii]) and take none of these characters; what is
      stated about the shape of a match either does not depend on them or
      is stated for ASCII text.
    - A [dict] whose iteration order matters is an association list in
      insertion order; a [dict] that is only looked up is a [gmap]; a [set]
      is a [gset].
    - Whatever belongs to the interpreter or to a library (the YAML loader,
      the file system, [hash], [genanki]) is a field of the class [World].
    - An exception is a result of its own: [None], or a constructor named
      after what raised.

    The modules [PyStr], [Re], [ModelFromYaml], [Model], [Paths] and [Main]
    follow the source; [Spec] holds the statements of the specification
    that are compared with the code, [Samples] the inputs of the test
    suite that the examples run on. *)

From Stdlib Require Import Ascii String ZArith.
From stdpp Require Import gmap strings list.

Set Warnings "-clear-no-such-hyp".

(** ** Python string operations *)

Module PyStr.

Definition dquote : string := String "034"%char "".
Definition newline : string := String "010"%char "".

Definition is_upper (c : ascii) : bool :=
  let n := nat_of_ascii c in (65 <=? n)%nat && (n <=? 90)%nat.

Definition lower_char (c : ascii) : ascii :=
  if is_upper c then ascii_of_nat (nat_of_ascii c + 32) else c.

(** [s.lower()] *)
Fixpoint lower (s : string) : string :=
  match s with
  | EmptyString => EmptyString
  | String c s' => String (lower_char c) (lower s')
  end.

(** [s[n:]] *)
Fixpoint drop (n : nat) (s : string) : string :=
  match n, s with
  | S n', String _ s' => drop n' s'
  | _, _ => s
  end.

(** [s[:n]] *)
Fixpoint take (n : nat) (s : string) : string :=
  match n, s with
  | S n', String c s' => String c (take n' s')
  | _, _ => EmptyString
  end.


(** [s.startswith(p)] *)
Fixpoint startswith (p s : string) : bool :=
  match p, s with
  | EmptyString, _ => true
  | String a p', String b s' => Ascii.eqb a b && startswith p' s'
  | String _ _, EmptyString => false
  end.

(** [all(f(c) for c in s)] *)
Fixpoint all_chars (f : ascii → bool) (s : string) : bool :=
  match s with
  | EmptyString => true
  | String c s' => f c && all_chars f s'
  end.

(** [sep.join(parts)] *)
Fixpoint join (sep : string) (parts : list string) : string :=
  match parts with
  | [] => ""
  | [x] => x
  | x :: rest => x +:+ sep +:+ join sep rest
  end.

(** [s.replace(old, new, 1)] for a non-empty [old]: the leftmost
    occurrence is replaced, the rest of the text is kept. *)
Fixpoint replace_first (old new s : string) : string :=
  if startswith old s then new +:+ drop (String.length old) s
  else match s with
       | EmptyString => EmptyString
       | String c s' => String c (replace_first old new s')
       end.

Fixpoint contains_slash (s : string) : bool :=
  match s with
  | EmptyString => false
  | String c s' => Ascii.eqb c "/" || contains_slash s'
  end.

(** The text after the last ["/"]: the [name] of a path given as text. *)
Fixpoint basename (s : string) : string :=
  match s with
  | EmptyString => EmptyString
  | String _ s' => if contains_slash s then basename s' else s
  end.

End PyStr.

(** ** Backtracking matchers, in the order [re] tries them

    A matcher takes the text at the current position and a continuation for
    the rest of the pattern; it calls the continuation on the text that is
    left and returns the first success, trying its alternatives in the
    order of Python's [re]: greedy repetitions from the longest, lazy ones
    from the shortest. *)

Module Re.
Import PyStr.

Section Matchers.
Context {R : Type}.
Implicit Types (s : string) (k : string → option R).

Definition eqb_ci (a b : ascii) : bool :=
  Ascii.eqb (lower_char a) (lower_char b).

(** a literal, under [re.IGNORECASE] *)
Fixpoint lit_ci (p : string) s k : option R :=
  match p with
  | EmptyString => k s
  | String a p' =>
      match s with
      | String b s' => if eqb_ci a b then lit_ci p' s' k else None
      | EmptyString => None
      end
  end.

(** a literal, case-sensitive *)
Definition lit (p : string) s k : option R :=
  if startswith p s then k (drop (String.length p) s) else None.

(** one character of a class *)
Definition cls (f : ascii → bool) s k : option R :=
  match s with
  | String b s' => if f b then k s' else None
  | EmptyString => None
  end.

(** [c*], greedy *)
Fixpoint star_greedy (f : ascii → bool) s k : option R :=
  match s with
  | String b s' =>
      if f b then
        match star_greedy f s' k with
        | Some r => Some r
        | None => k s
        end
      else k s
  | EmptyString => k s
  end.

(** [c+], greedy *)
Definition plus_greedy (f : ascii → bool) s k : option R :=
  cls f s (λ s', star_greedy f s' k).

(** [c*?], lazy *)
Fixpoint star_lazy (f : ascii → bool) s k : option R :=
  match k s with
  | Some r => Some r
  | None =>
      match s with
      | String b s' => if f b then star_lazy f s' k else None
      | EmptyString => None
      end
  end.

(** [c+?], lazy *)
Definition plus_lazy (f : ascii → bool) s k : option R :=
  cls f s (λ s', star_lazy f s' k).

(** [m?], greedy *)
Definition opt_greedy (m : string → (string → option R) → option R) s k
  : option R :=
  match m s k with
  | Some r => Some r
  | None => k s
  end.

End Matchers.

(** Does the text at this position start with a match of [m]? *)
Definition looking_at (m : string → (string → option unit) → option unit)
    (s : string) : bool :=
  bool_decide (is_Some (m s (λ _, Some tt))).

(** The text matched between two positions of the same string. *)
Definition consumed (before after : string) : string :=
  take (String.length before - String.length after) before.

Definition is_space (c : ascii) : bool :=
  let n := nat_of_ascii c in
  ((9 <=? n)%nat && (n <=? 13)%nat) || ((28 <=? n)%nat && (n <=? 32)%nat).

Definition is_not (x : ascii) (c : ascii) : bool := negb (Ascii.eqb c x).

Definition any_char (c : ascii) : bool := true.

(** Does [s] start with [p], letter case apart? *)
Fixpoint starts_ci (p s : string) : bool :=
  match p, s with
  | EmptyString, _ => true
  | String a p', String b s' => eqb_ci a b && starts_ci p' s'
  | String _ _, EmptyString => false
  end.



(** [pattern.finditer(s)]: the matches from left to right, none
    overlapping.  [re_at] matches at one position and gives what the
    caller wants of the match and the text after it; after a match the
    scan resumes where the match ended ([skip] counts the characters of
    the match still to pass). *)
Fixpoint finditer_from {G : Type} (re_at : string → option (G * string))
    (s : string) (skip : nat) : list G :=
  match skip with
  | S n =>
      match s with
      | String _ s' => finditer_from re_at s' n
      | EmptyString => []
      end
  | O =>
      match re_at s with
      | Some (g, rest) =>
          g :: match s with
               | String _ s' =>
                   finditer_from re_at s'
                     (String.length s - String.length rest - 1)
               | EmptyString => []
               end
      | None =>
          match s with
          | String _ s' => finditer_from re_at s' 0
          | EmptyString => []
          end
      end
  end.

Definition finditer {G : Type} (re_at : string → option (G * string))
    (s : string) : list G :=
  finditer_from re_at s 0.

End Re.

(** ** [model_from_yaml.py]: the note-type schema and its validation *)

Module ModelFromYaml.
Import PyStr Re.

(** [TEMPLATE_FIELD_RE = \{\{([#/^]?)([^}]+?)\}\}], matched at one
    position: group 2 and the text after the match. *)
Definition is_modifier (c : ascii) : bool :=
  Ascii.eqb c "#" || Ascii.eqb c "/" || Ascii.eqb c "^".

Definition TEMPLATE_FIELD_RE (s : string) : option (string * string) :=
  lit "{{" s (λ s1,
  opt_greedy (cls is_modifier) s1 (λ s2,
  plus_lazy (is_not "}") s2 (λ s3,
  lit "}}" s3 (λ s4,
  Some (consumed s2 s3, s4))))).

Record AnkiField := { f_name : string }.

Record AnkiTemplate := { t_name : string; qfmt : string; afmt : string }.

(** [yaml_field_map] is a [dict] that the extractor iterates: an
    association list in insertion order. *)
Record AnkiModelDefinition := {
  model_id : Z;
  model_name : string;
  fields : list AnkiField;
  templates : list AnkiTemplate;
  yaml_field_map : option (list (string * string));
  css : string
}.

Definition with_yaml_field_map (m : AnkiModelDefinition)
    (fm : list (string * string)) : AnkiModelDefinition :=
  {| model_id := model_id m; model_name := model_name m;
     fields := fields m; templates := templates m;
     yaml_field_map := Some fm; css := css m |}.

Inductive fmt_side := Qfmt | Afmt.

Inductive field_error :=
| EmptyList (field : string)      (* "Fields and templates list cannot be empty" *)
| NonPositiveId.                  (* "Model ID must be a positive integer" *)

Inductive validation_error :=
| FieldErrors (errors : list field_error)
| UndefinedTemplateFields (template : string) (side : fmt_side)
    (missing : gset string)       (* "... uses undefined fields: {missing}" *)
| NoDefaultMapping                (* "Cannot set default q/a mapping: ..." *)
| UnknownMappedFields (missing : gset string).

Inductive result (A : Type) :=
| Ok (a : A)
| Err (e : validation_error).
Arguments Ok {A} a.
Arguments Err {A} e.

Definition bind {A B : Type} (r : result A) (f : A → result B) : result B :=
  match r with
  | Ok a => f a
  | Err e => Err e
  end.

Definition check_not_empty {A : Type} (field : string) (v : list A)
    : list field_error :=
  match v with
  | [] => [EmptyList field]
  | _ => []
  end.

Definition check_id_positive (v : Z) : list field_error :=
  if (v <=? 0)%Z then [NonPositiveId] else [].

Definition BUILTIN_FIELDS : gset string :=
  list_to_set ["FrontSide"; "Tags"; "Type"; "Deck"; "Subdeck"; "Card"].

Definition field_names (m : AnkiModelDefinition) : gset string :=
  list_to_set (f_name <$> fields m).

(** The names a format string refers to: group 2 of every match. *)
Definition referenced_fields (fmt : string) : gset string :=
  list_to_set (finditer TEMPLATE_FIELD_RE fmt).

Definition missing_fields (m : AnkiModelDefinition) (fmt : string)
    : gset string :=
  (referenced_fields fmt ∖ BUILTIN_FIELDS) ∖ field_names m.

(** The loop over the templates: the first format string with an
    undefined field raises. *)
Fixpoint check_templates (m : AnkiModelDefinition)
    (ts : list AnkiTemplate) : result unit :=
  match ts with
  | [] => Ok tt
  | template :: ts' =>
      let missing_q_fields := missing_fields m (qfmt template) in
      if decide (missing_q_fields = ∅) then
        let missing_a_fields := missing_fields m (afmt template) in
        if decide (missing_a_fields = ∅) then check_templates m ts'
        else Err (UndefinedTemplateFields (t_name template) Afmt
                    missing_a_fields)
      else Err (UndefinedTemplateFields (t_name template) Qfmt
                  missing_q_fields)
  end.

Definition check_template_fields_exist (m : AnkiModelDefinition)
    : result AnkiModelDefinition :=
  match fields m with
  | [] => Ok m
  | _ => bind (check_templates m (templates m)) (λ _, Ok m)
  end.

(** [d[key] = value] on an insertion-ordered dict *)
Fixpoint dict_set (d : list (string * string)) (key value : string)
    : list (string * string) :=
  match d with
  | [] => [(key, value)]
  | (k, v) :: d' =>
      if String.eqb k key then (k, value) :: d'
      else (k, v) :: dict_set d' key value
  end.

(** [d.get(key)] *)
Fixpoint dict_get (d : list (string * string)) (key : string)
    : option string :=
  match d with
  | [] => None
  | (k, v) :: d' => if String.eqb k key then Some v else dict_get d' key
  end.

Definition is_named (what : string) (f : AnkiField) : bool :=
  String.eqb (lower (f_name f)) what.

Definition set_default_yaml_field_map (m : AnkiModelDefinition)
    : result AnkiModelDefinition :=
  bind
    match yaml_field_map m with
    | None =>
        match fields m with
        | f0 :: f1 :: _ =>               (* len(self.fields) >= 2 *)
            let fm := [("q", f_name f0); ("a", f_name f1)] in
            Ok (with_yaml_field_map m
                  match find (is_named "tags") (fields m) with
                  | Some f => dict_set fm "tags" (f_name f)
                  | None => fm
                  end)
        | _ => Err NoDefaultMapping
        end
    | Some _ => Ok m
    end
    (λ m',
      let mapped_field_names : gset string :=
        list_to_set (default [] (yaml_field_map m')).*2 in
      let missing_mapped := mapped_field_names ∖ field_names m' in
      if decide (missing_mapped = ∅) then Ok m'
      else Err (UnknownMappedFields missing_mapped)).

(** [AnkiModelDefinition.model_validate] on data of the right shape:
    the field validators first, all their errors reported together; the
    two model validators, in the order of their definition, only when
    the fields are valid. *)
Definition model_validate (m : AnkiModelDefinition)
    : result AnkiModelDefinition :=
  match check_id_positive (model_id m)
        ++ check_not_empty "fields" (fields m)
        ++ check_not_empty "templates" (templates m) with
  | [] => bind (check_template_fields_exist m) set_default_yaml_field_map
  | errors => Err (FieldErrors errors)
  end.

End ModelFromYaml.

(** ** [model.py]: the note type handed to genanki *)

Module Model.
Import ModelFromYaml.

(** [genanki.Model] as built by [create_genanki_model]: the schema's
    fields and templates in their declared order. *)
Record genanki_Model := {
  gm_model_id : Z;
  gm_name : string;
  gm_fields : list string;                       (* [{"name": f.name}] *)
  gm_templates : list (string * string * string);
  gm_css : string
}.

Definition create_genanki_model (model_def : AnkiModelDefinition)
    : genanki_Model :=
  {| gm_model_id := model_id model_def;
     gm_name := model_name model_def;
     gm_fields := f_name <$> fields model_def;
     gm_templates :=
       (λ t, (t_name t, qfmt t, afmt t)) <$> templates model_def;
     gm_css := css model_def |}.

End Model.

(** ** Paths, YAML values and the outside world *)

Module Paths.
Import PyStr.

(** An absolute POSIX [pathlib.Path]: its components below ["/"]. *)
Definition path := list string.

(** [p.name]: the last component, empty for the root. *)
Definition name (p : path) : string := List.last p "".

(** [p.parent] *)
Definition parent (p : path) : path := removelast p.

(** [p.relative_to(root)]: the components below [root]; [None] stands for
    the [ValueError] raised when [p] is not inside [root]. *)
Fixpoint relative_to (p root : path) : option path :=
  match root with
  | [] => Some p
  | r :: root' =>
      match p with
      | c :: p' => if String.eqb c r then relative_to p' root' else None
      | [] => None
      end
  end.

(** [str(p)] for a relative path *)
Definition str_relative (p : path) : string :=
  match p with
  | [] => "."
  | _ => join "/" p
  end.

End Paths.

Set Warnings "-register-all".

(** What [yaml.safe_load] returns: [None], [bool], [int], [str], [list],
    [dict] and, for [!!set], [set].  Floats, timestamps and binary scalars
    are left out: they are scalars that can be hashed, and the extractor
    treats them like the other scalars that are not strings. *)
Inductive yaml :=
| YNull
| YBool (b : bool)
| YInt (z : Z)
| YStr (s : string)
| YSeq (items : list yaml)
| YMap (entries : list (yaml * yaml))
| YSet (items : list yaml).

Inductive load_result :=
| YAMLError
| OtherError                         (* any other exception of the loader *)
| Loaded (v : yaml).

(** [(md_file_dir / src).resolve()] followed by [is_file()]: the absolute
    path as text and whether it is a file; [PathRaises] when a pathlib call
    raises (a permission error, an embedded null byte). *)
Inductive path_lookup :=
| PathRaises
| NotAFile (absolute : string)
| IsFile (absolute : string).

(** A note as handed to [genanki.Note]. *)
Record Note := {
  note_fields : list string;
  note_guid : string;
  note_tags : yaml
}.

(** What reading and parsing the model definition file gives, before the
    validators run. *)
Inductive model_source :=
| ModelFileMissing
| ModelInvalidYaml
| ModelMalformed                     (* data of the wrong shape *)
| ModelData (m : ModelFromYaml.AnkiModelDefinition).

Class World := {
  (** the model definition file, read and parsed *)
  read_model : Paths.path → model_source;
  (** [root_path.is_dir()] *)
  is_dir : Paths.path → bool;
  (** [root_path.rglob("*.md")], each path resolved *)
  rglob_md : Paths.path → list Paths.path;
  (** [filepath.read_text(encoding="utf-8")]; [None] when it raises *)
  read_text : Paths.path → option string;
  (** [yaml.safe_load] on the body of a block *)
  yaml_safe_load : string → load_result;
  (** the file system under the directory of a document *)
  lookup_image : Paths.path → string → path_lookup;
  (** [str(v)] for a value that is neither a string nor [None] *)
  str_other : yaml → string;
  (** [hash(v)] for a hashable value *)
  py_hash : yaml → Z;
  (** [genanki.guid_for] *)
  guid_for : string → string;
  (** does [genanki.Note(...)] followed by [add_note] return normally? *)
  note_accepted : Note → bool;
  (** does [package.write_to_file] return normally? *)
  write_succeeds : string → bool
}.

(** ** [main.py]: deck names, image resolution, card extraction *)

Module Main.
Import PyStr Re Paths ModelFromYaml Model.

(** [ANKI_BLOCK_RE = ```anki\s*\n(.*?)\n```], DOTALL and IGNORECASE,
    matched at one position: group 1 and the text after the match. *)
Definition fence : string := "```".

Definition ANKI_BLOCK_RE (s : string) : option (string * string) :=
  lit_ci (fence +:+ "anki") s (λ s1,
  star_greedy is_space s1 (λ s2,
  lit_ci newline s2 (λ s3,
  star_lazy any_char s3 (λ s4,
  lit_ci (newline +:+ fence) s4 (λ s5,
  Some (consumed s3 s4, s5)))))).

(** The lookahead of [IMG_SRC_RE]: [https?://|data:]. *)
Definition remote_scheme (s : string) : bool :=
  looking_at (λ s k,
    lit_ci "http" s (λ s1,
    opt_greedy (lit_ci "s") s1 (λ s2,
    lit_ci "://" s2 k))) s
  || looking_at (lit_ci "data:") s.

(** [IMG_SRC_RE = <img\s+[^>]*src=Q(?!https?://|data:)([^Q]+)Q[^>]*>]
    where [Q] is the double quote, IGNORECASE, matched at one position:
    group 0 (the tag), group 1 (the src) and the text after the match.
    The pattern is cut in three: what follows [src=Q], the attributes in
    front of it, and the opening of the tag; [s] is the text at the start
    of the match. *)
Definition img_after_src (s s4 : string) : option (string * string * string) :=
  if remote_scheme s4 then None else
  plus_greedy (is_not "034") s4 (λ s5,
  lit_ci dquote s5 (λ s6,
  star_greedy (is_not ">") s6 (λ s7,
  lit_ci ">" s7 (λ s8,
  Some (consumed s s8, consumed s4 s5, s8))))).

Definition img_attrs (s s2 : string) : option (string * string * string) :=
  star_greedy (is_not ">") s2 (λ s3,
  lit_ci ("src=" +:+ dquote) s3 (img_after_src s)).

Definition IMG_SRC_RE (s : string) : option (string * string * string) :=
  lit_ci "<img" s (λ s1,
  plus_greedy is_space s1 (img_attrs s)).

Definition calculate_deck_name (root_dir filepath : path) : option string :=
  relative_path ← relative_to filepath root_dir;
  let parts := name root_dir :: removelast relative_path in
  Some match parts with
       | [] => name root_dir
       | _ => join "::" parts
       end.

(** *** Image resolution *)

Definition src_attr (value : string) : string :=
  "src=" +:+ dquote +:+ value +:+ dquote.

(** The callback of [IMG_SRC_RE.sub]: the replacement for the tag and what
    it appends to [found_media_in_field]; [None] when pathlib raises. *)
Definition replace_src `{World} (md_file_dir : path)
    (tag original_src : string) : option (string * list string) :=
  match lookup_image md_file_dir original_src with
  | PathRaises => None
  | IsFile absolute_img_path =>
      let filename := basename absolute_img_path in
      Some (replace_first (src_attr original_src) (src_attr filename) tag,
            [absolute_img_path])
  | NotAFile _ => Some (tag, [])
  end.

(** [IMG_SRC_RE.sub(replace_src, s)]: text outside the matches is copied,
    each match is replaced by what the callback returns. *)
Fixpoint sub_from (repl : string → string → option (string * list string))
    (s : string) (skip : nat) : option (string * list string) :=
  match skip with
  | S n =>
      match s with
      | String _ s' => sub_from repl s' n
      | EmptyString => Some (EmptyString, [])
      end
  | O =>
      match IMG_SRC_RE s with
      | Some (tag, src, rest) =>
          '(new_tag, found) ← repl tag src;
          '(out, found') ←
            match s with
            | String _ s' =>
                sub_from repl s' (String.length s - String.length rest - 1)
            | EmptyString => Some (EmptyString, [])
            end;
          Some (new_tag +:+ out, found ++ found')
      | None =>
          match s with
          | String c s' =>
              '(out, found) ← sub_from repl s' 0;
              Some (String c out, found)
          | EmptyString => Some (EmptyString, [])
          end
      end
  end.

(** The processed content and the media of the field, a set whose listing
    order Python leaves open; [None] when a pathlib call raises. *)
Definition process_field_for_images `{World} (field_content : string)
    (md_file_dir : path) : option (string * gset string) :=
  '(processed_content, found_media_in_field) ←
    sub_from (replace_src md_file_dir) field_content 0;
  Some (processed_content, list_to_set found_media_in_field).

(** *** Card extraction *)

(** The dict built for [generate_anki_package]. *)
Record card := {
  c_fields : gmap string string;
  c_tags : yaml;
  c_deck : yaml;
  c_guid_basis : string
}.

(** [raw_card_data.get(key)] for a string key *)
Fixpoint raw_get (raw : list (yaml * yaml)) (key : string) : option yaml :=
  match raw with
  | [] => None
  | (YStr k, v) :: raw' =>
      if String.eqb k key then Some v else raw_get raw' key
  | _ :: raw' => raw_get raw' key
  end.

(** [str(v)] *)
Definition py_str `{World} (v : yaml) : string :=
  match v with
  | YStr s => s
  | YNull => "None"
  | _ => str_other v
  end.

(** An f-string field holding the result of [dict.get] on strings *)
Definition format_get (o : option string) : string := default "None" o.

Inductive skip_reason :=
| CouldNotParse                  (* yaml.YAMLError *)
| NotADict                       (* "Skipping non-dict anki block" *)
| MissingKey (yaml_key field_name : string)
| ErrorProcessing.               (* any other exception *)

Inductive loop_exit :=
| LoopRaised
| LoopMissing (yaml_key field_name : string)
| LoopDone (card_fields : gmap string string) (card_media : gset string).

(** The loop over [model_def.yaml_field_map.items()]. *)
Fixpoint populate_fields `{World} (md_dir : path)
    (raw_card_data : list (yaml * yaml)) (items : list (string * string))
    (card_fields : gmap string string) (card_media : gset string)
    : loop_exit :=
  match items with
  | [] => LoopDone card_fields card_media
  | (yaml_key, field_name) :: items' =>
      if String.eqb yaml_key "tags" then
        populate_fields md_dir raw_card_data items' card_fields card_media
      else
        match raw_get raw_card_data yaml_key with
        | None | Some YNull => LoopMissing yaml_key field_name
        | Some field_content_raw =>
            match process_field_for_images (py_str field_content_raw)
                    md_dir with
            | None => LoopRaised
            | Some (processed_content, media) =>
                populate_fields md_dir raw_card_data items'
                  (<[field_name := processed_content]> card_fields)
                  (card_media ∪ media)
            end
        end
  end.

Inductive block_outcome :=
| Skipped (why : skip_reason)
| Extracted (c : card) (card_media : gset string).

(** The body of the loop over the blocks.  [tags_field_name] of the
    source is read only by a branch that does nothing, and is left out. *)
Definition process_block `{World} (model_def : AnkiModelDefinition)
    (md_dir : path) (relative_filepath default_deck_name : string)
    (source_file_field_name : option string) (yaml_content : string)
    : block_outcome :=
  match yaml_safe_load yaml_content with
  | YAMLError => Skipped CouldNotParse
  | OtherError => Skipped ErrorProcessing
  | Loaded (YMap raw_card_data) =>
      let card_tags := default (YSeq []) (raw_get raw_card_data "tags") in
      match yaml_field_map model_def with
      | None => Skipped ErrorProcessing     (* None has no items() *)
      | Some field_map =>
          match populate_fields md_dir raw_card_data field_map ∅ ∅ with
          | LoopRaised => Skipped ErrorProcessing
          | LoopMissing yaml_key field_name =>
              Skipped (MissingKey yaml_key field_name)
          | LoopDone card_fields card_media =>
              let card_fields :=
                match source_file_field_name with
                | Some n =>
                    if String.eqb n "" then card_fields
                    else <[n := relative_filepath]> card_fields
                | None => card_fields
                end in
              let deck :=
                default (YStr default_deck_name)
                  (raw_get raw_card_data "deck") in
              Extracted
                {| c_fields := card_fields;
                   c_tags := card_tags;
                   c_deck := deck;
                   c_guid_basis :=
                     format_get
                       (card_fields !! default "" (dict_get field_map "q"))
                     +:+ "|" +:+
                     format_get
                       (card_fields !! default "" (dict_get field_map "a"))
                     +:+ "|" +:+ py_str deck
                     +:+ "|" +:+ relative_filepath |}
                card_media
          end
      end
  | Loaded _ => Skipped NotADict
  end.

Fixpoint process_blocks `{World} (model_def : AnkiModelDefinition)
    (md_dir : path) (relative_filepath default_deck_name : string)
    (source_file_field_name : option string) (blocks : list string)
    (cards : list card) (all_media_for_file : gset string)
    : list card * gset string :=
  match blocks with
  | [] => (cards, all_media_for_file)
  | yaml_content :: blocks' =>
      match process_block model_def md_dir relative_filepath
              default_deck_name source_file_field_name yaml_content with
      | Extracted c card_media =>
          process_blocks model_def md_dir relative_filepath
            default_deck_name source_file_field_name blocks'
            (cards ++ [c]) (all_media_for_file ∪ card_media)
      | Skipped _ =>
          process_blocks model_def md_dir relative_filepath
            default_deck_name source_file_field_name blocks'
            cards all_media_for_file
      end
  end.

Definition source_file_field (model_def : AnkiModelDefinition)
    : option string :=
  f_name <$> find (is_named "sourcefile") (fields model_def).

(** [None] stands for the [ValueError] of [relative_to], raised before the
    [try] when the file is not inside the scan root. *)
Definition find_anki_cards_in_file `{World} (filepath root_dir : path)
    (model_def : AnkiModelDefinition) : option (list card * gset string) :=
  default_deck_name ← calculate_deck_name root_dir filepath;
  let md_dir := parent filepath in
  relative_filepath ← str_relative <$> relative_to filepath root_dir;
  let source_file_field_name := source_file_field model_def in
  match read_text filepath with
  | Some content =>
      Some (process_blocks model_def md_dir relative_filepath
              default_deck_name source_file_field_name
              (finditer ANKI_BLOCK_RE content) [] ∅)
  | None => Some ([], ∅)                      (* "Error reading file" *)
  end.

(** *** The package builder *)

Record Deck := {
  deck_id : Z;
  deck_name : yaml;
  deck_notes : list Note
}.

Inductive level := Debug | Info | Warning | Error.

(** What the run does that can be seen from outside. *)
Inductive event :=
| Log (lvl : level) (message : string)
| Stdout (message : string)           (* print(...) *)
| WritePackage (decks : list Deck) (media_files : gset string)
    (filename : string).

Definition is_log (e : event) : Prop :=
  match e with
  | Log _ _ => True
  | _ => False
  end.

(** Lists, dicts and sets cannot be dict keys: hashing them raises
    [TypeError]. *)
Definition hashable (v : yaml) : bool :=
  match v with
  | YSeq _ | YMap _ | YSet _ => false
  | _ => true
  end.

Definition as_number (v : yaml) : option Z :=
  match v with
  | YBool b => Some (if b then 1 else 0)%Z
  | YInt z => Some z
  | _ => None
  end.

(** [==] between dict keys *)
Definition key_eqb (a b : yaml) : bool :=
  match a, b with
  | YNull, YNull => true
  | YStr s, YStr t => String.eqb s t
  | _, _ =>
      match as_number a, as_number b with
      | Some x, Some y => (x =? y)%Z
      | _, _ => false
      end
  end.

(** [deck_name in decks] *)
Definition has_deck (decks : list Deck) (name : yaml) : bool :=
  existsb (λ d, key_eqb (deck_name d) name) decks.

(** [decks[deck_name].add_note(note)] *)
Fixpoint add_note (decks : list Deck) (name : yaml) (note : Note)
    : list Deck :=
  match decks with
  | [] => []
  | d :: decks' =>
      if key_eqb (deck_name d) name then
        {| deck_id := deck_id d; deck_name := deck_name d;
           deck_notes := deck_notes d ++ [note] |} :: decks'
      else d :: add_note decks' name note
  end.

Definition ordered_fields (card_data : card)
    (model_field_names : list string) : list string :=
  (λ name, default "" (c_fields card_data !! name)) <$> model_field_names.

(** The arguments of [genanki.Note(...)] for one card. *)
Definition make_note `{World} (anki_model : genanki_Model)
    (card_data : card) : Note :=
  {| note_fields := ordered_fields card_data (gm_fields anki_model);
     note_guid := guid_for (c_guid_basis card_data);
     note_tags := c_tags card_data |}.

(** The loop over [card_data_list]; [None] when hashing the deck name
    raises [TypeError], which nothing catches. *)
Fixpoint add_cards `{World} (anki_model : genanki_Model) (deck_id_base : Z)
    (card_data_list : list card) (decks : list Deck) (log : list event)
    : option (list Deck * list event) :=
  match card_data_list with
  | [] => Some (decks, log)
  | card_data :: rest =>
      let deck_name := c_deck card_data in
      if hashable deck_name then
        let '(decks, log) :=
          if has_deck decks deck_name then (decks, log)
          else
            let deck_id :=
              (deck_id_base + Z.abs (py_hash deck_name) `mod` 100000000)%Z in
            (decks ++ [{| deck_id := deck_id; deck_name := deck_name;
                          deck_notes := [] |}],
             log ++ [Log Debug "Created deck"]) in
        let note := make_note anki_model card_data in
        if note_accepted note then
          add_cards anki_model deck_id_base rest
            (add_note decks deck_name note) log
        else
          add_cards anki_model deck_id_base rest decks
            (log ++ [Log Error "Failed to create Anki Note"])
      else None
  end.

(** [Some events] when the call returns, [None] when it raises. *)
Definition generate_anki_package `{World} (card_data_list : list card)
    (media_files : gset string) (anki_model : genanki_Model)
    (output_filename : string) : option (list event) :=
  let deck_id_base :=
    (2000000000
     + Z.abs (py_hash (YStr (gm_name anki_model))) `mod` 500000000)%Z in
  '(decks, log) ←
    add_cards anki_model deck_id_base card_data_list []
      [Log Info "Generating Anki package"];
  match decks with
  | [] => Some (log ++ [Log Warning "No cards found to generate package."])
  | _ =>
      let unique_media_files := media_files in
      let log := log ++ [Log Info "Found unique media files."] in
      let log :=
        if decide (unique_media_files = ∅) then log
        else log ++ [Log Debug "Media files to include"] in
      let log :=
        log ++ [WritePackage decks unique_media_files output_filename] in
      Some (log ++ [if write_succeeds output_filename
                    then Log Info "Generated Anki package"
                    else Log Error "Failed to write Anki package"])
  end.

(** *** The run *)

Record CliArgs := {
  notes_directory : path;
  output_file : string;
  model_definition : path;
  verbose : bool
}.

(** [load_and_validate_model]; [None] when it raises. *)
Definition load_and_validate_model `{World} (model_path : path)
    : option AnkiModelDefinition :=
  match read_model model_path with
  | ModelData model_data =>
      match model_validate model_data with
      | Ok model_def => Some model_def
      | Err _ => None
      end
  | _ => None
  end.

(** The loop over the Markdown files: a file whose extraction raises is
    logged and passed over. *)
Fixpoint scan_files `{World} (root_path : path)
    (model_def : AnkiModelDefinition) (md_files : list path)
    (all_cards : list card) (all_media : gset string)
    : list card * gset string :=
  match md_files with
  | [] => (all_cards, all_media)
  | resolved_file_path :: md_files' =>
      match find_anki_cards_in_file resolved_file_path root_path
              model_def with
      | Some (file_cards, file_media) =>
          scan_files root_path model_def md_files'
            (all_cards ++ file_cards) (all_media ∪ file_media)
      | None => scan_files root_path model_def md_files' all_cards all_media
      end
  end.

Inductive run_outcome :=
| Exit1                             (* sys.exit(1) *)
| Uncaught                          (* an exception leaves [_main] *)
| Returned (events : list event).

Definition _main `{World} (args : CliArgs) : run_outcome :=
  match load_and_validate_model (model_definition args) with
  | None => Exit1
  | Some model_def =>
      let anki_model := create_genanki_model model_def in
      let root_path := notes_directory args in
      if is_dir root_path then
        let '(all_cards, all_media) :=
          scan_files root_path model_def (rglob_md root_path) [] ∅ in
        match all_cards with
        | _ :: _ =>
            match generate_anki_package all_cards all_media anki_model
                    (output_file args) with
            | Some events => Returned events
            | None => Uncaught
            end
        | [] =>
            Returned
              [Log Warning
                 "No valid Anki card definitions found in scanned files.";
               Stdout "No valid Anki card definitions found."]
        end
      else Exit1
  end.

End Main.

(** ** What the specification says, where it is compared with the code *)

Module Spec.
Import PyStr Re Paths ModelFromYaml Main.

(** Index of the last ["."] of a name. *)
Fixpoint rindex_dot (s : string) : option nat :=
  match s with
  | EmptyString => None
  | String c s' =>
      match rindex_dot s' with
      | Some i => Some (S i)
      | None => if Ascii.eqb c "." then Some 0 else None
      end
  end.

(** "the filename without its extension", as [pathlib] reads it *)
Definition stem (filename : string) : string :=
  match rindex_dot filename with
  | Some i =>
      if (0 <? i)%nat && (i <? String.length filename - 1)%nat
      then take i filename else filename
  | None => filename
  end.

(** The deck name as the specification words it: the root's name, the
    directories below the root, and with the flag the filename without
    its extension, joined by ["::"]. *)
Definition deck_name_spec (include_filename : bool)
    (root_dir filepath : path) : option string :=
  relative_path ← relative_to filepath root_dir;
  Some (join "::"
          (name root_dir :: removelast relative_path
             ++ if include_filename then [stem (name filepath)] else [])).

(** One part of the identity basis as the specification words it: the
    content of the field mapped from [key], or the empty string when the
    key is unmapped. *)
Definition mapped_content_spec (field_map : list (string * string))
    (c : card) (key : string) : string :=
  match dict_get field_map key with
  | Some field_name => default "" (c_fields c !! field_name)
  | None => ""
  end.

Definition identity_basis_spec `{World} (field_map : list (string * string))
    (c : card) (relative_filepath : string) : string :=
  mapped_content_spec field_map c "q" +:+ "|" +:+
  mapped_content_spec field_map c "a" +:+ "|" +:+
  py_str (c_deck c) +:+ "|" +:+ relative_filepath.

(** One part of the identity basis as the code computes it: the content
    of the field mapped from [key]; for an unmapped key the lookup of the
    empty field name, formatted, which reads "None" unless a field with
    the empty name is populated. *)
Definition identity_part (field_map : list (string * string))
    (c : card) (key : string) (text : string) : Prop :=
  match dict_get field_map key with
  | Some field_name => c_fields c !! field_name = Some text
  | None => text = default "None" (c_fields c !! "")
  end.

(** Every name a format string refers to is declared or built in. *)
Definition all_declared (m : AnkiModelDefinition) (fmt : string) : Prop :=
  ∀ name, name ∈ referenced_fields fmt →
    name ∈ BUILTIN_FIELDS ∨ name ∈ field_names m.

(** A name that a template of the schema refers to and that is neither
    declared nor built in. *)
Definition undefined_reference (m : AnkiModelDefinition) (name : string)
    : Prop :=
  ∃ t, t ∈ templates m
    ∧ name ∈ referenced_fields (qfmt t) ∪ referenced_fields (afmt t)
    ∧ (name ∉ BUILTIN_FIELDS) ∧ (name ∉ field_names m).

(** The specification's wording: validation fails with an error that
    names every such field. *)
Definition error_names_each_undefined_field (m : AnkiModelDefinition)
    : Prop :=
  ∀ name, undefined_reference m name →
    ∃ template side missing,
      model_validate m = Err (UndefinedTemplateFields template side missing)
      ∧ name ∈ missing.

(** The specification's wording of the identity basis, for the cards of
    one file. *)
Definition identity_basis_as_specified `{World} (filepath root_dir : path)
    (model_def : AnkiModelDefinition) : Prop :=
  ∀ cards media field_map rel c,
    find_anki_cards_in_file filepath root_dir model_def
    = Some (cards, media) →
    yaml_field_map model_def = Some field_map →
    relative_to filepath root_dir = Some rel →
    c ∈ cards →
    c_guid_basis c = identity_basis_spec field_map c (str_relative rel).

(** An image tag, written out: [<img], blanks, the attributes before the
    src, the src attribute, the attributes after it, [>]. *)
Definition img_tag (ws before src after : string) : string :=
  "<img" +:+ ws +:+ before +:+ src_attr src +:+ after +:+ ">".

Definition plain (c : ascii) : bool := is_not "<" c && is_not ">" c.

(** The text before the src attribute ends where an attribute can start. *)
Fixpoint attr_boundary (before : string) : bool :=
  match before with
  | EmptyString => true
  | String c EmptyString => is_space c
  | String _ before' => attr_boundary before'
  end.

Definition tag_shape (ws before src after : string) : Prop :=
  ws ≠ "" ∧ all_chars is_space ws = true
  ∧ all_chars plain before = true ∧ attr_boundary before = true
  ∧ src ≠ "" ∧ all_chars (λ c, plain c && is_not "034" c) src = true
  ∧ all_chars plain after = true.

(** "starts with http://, https://, or data:" *)
Definition starts_remote (src : string) : bool :=
  startswith "http://" src || startswith "https://" src
  || startswith "data:" src.

(** The specification's wording of image resolution, for a field that
    consists of one image tag. *)
Definition image_resolution_as_specified `{World} : Prop :=
  ∀ (md_dir : path) (ws before src after : string),
    tag_shape ws before src after →
    (starts_remote src = true →
     process_field_for_images (img_tag ws before src after) md_dir
     = Some (img_tag ws before src after, ∅))
    ∧ (starts_remote src = false →
       ∀ absolute, lookup_image md_dir src = IsFile absolute →
         process_field_for_images (img_tag ws before src after) md_dir
         = Some (img_tag ws before (basename absolute) after, {[absolute]}))
    ∧ (starts_remote src = false →
       ∀ absolute, lookup_image md_dir src = NotAFile absolute →
         process_field_for_images (img_tag ws before src after) md_dir
         = Some (img_tag ws before src after, ∅)).


(** A block that cannot give a card: its body does not load, loads as
    something that is not a mapping, or lacks (or gives as null) a key of
    the schema's map other than "tags". *)
Definition unusable_block `{World} (model_def : AnkiModelDefinition)
    (body : string) : Prop :=
  yaml_safe_load body = YAMLError ∨ yaml_safe_load body = OtherError
  ∨ (∃ v, yaml_safe_load body = Loaded v ∧ ∀ raw, v ≠ YMap raw)
  ∨ (∃ raw field_map k f,
       yaml_safe_load body = Loaded (YMap raw)
       ∧ yaml_field_map model_def = Some field_map
       ∧ (k, f) ∈ field_map ∧ k ≠ "tags"
       ∧ (raw_get raw k = None ∨ raw_get raw k = Some YNull)).

End Spec.

(** ** Sample inputs, taken from the test suite *)

(** ** Readings of results *)

Module Readings.
Import Main.

(** The card that a block contributes, if any, and its media. *)
Definition outcome_card (o : block_outcome) : option card :=
  match o with
  | Extracted c _ => Some c
  | Skipped _ => None
  end.

Definition outcome_media (o : block_outcome) : gset string :=
  match o with
  | Extracted _ card_media => card_media
  | Skipped _ => ∅
  end.

(** No two decks have names that are equal as dict keys. *)
Definition distinct_names (decks : list Deck) : Prop :=
  ∀ i j di dj, decks !! i = Some di → decks !! j = Some dj →
    key_eqb (deck_name di) (deck_name dj) = true → i = j.

(** Does the card go to this deck, and is its note accepted? *)
Definition lands_in `{World} (anki_model : Model.genanki_Model) (d : Deck)
    (c : card) : bool :=
  key_eqb (deck_name d) (c_deck c) && note_accepted (make_note anki_model c).

(** The decks hold the cards done so far, grouped by deck name: names are
    distinct, every card done has its deck, and every deck was created for
    one of the cards, with its id, and holds the notes of the accepted
    cards of its name in their order. *)
Definition grouped `{World} (anki_model : Model.genanki_Model)
    (deck_id_base : Z) (done : list card) (decks : list Deck) : Prop :=
  distinct_names decks
  ∧ (∀ c, c ∈ done → has_deck decks (c_deck c) = true)
  ∧ ∀ d, d ∈ decks →
      (∃ c, c ∈ done ∧ deck_name d = c_deck c)
      ∧ deck_id d
        = (deck_id_base + Z.abs (py_hash (deck_name d)) `mod` 100000000)%Z
      ∧ deck_notes d
        = make_note anki_model <$> List.filter (lands_in anki_model d) done.

End Readings.

Module Samples.
Import PyStr Paths ModelFromYaml Model Main.

Definition two_field_schema : AnkiModelDefinition :=
  {| model_id := 123; model_name := "Minimal Model";
     fields := [ {| f_name := "Front" |}; {| f_name := "Back" |} ];
     templates := [ {| t_name := "Card 1"; qfmt := "{{Front}}";
                       afmt := "{{Front}}<hr>{{Back}}" |} ];
     yaml_field_map := None; css := "" |}.

(** The schema of the test for a negative id, with its field list emptied
    as well. *)
Definition negative_id_schema : AnkiModelDefinition :=
  {| model_id := -1; model_name := "Invalid Model";
     fields := [];
     templates := [ {| t_name := "Card 1"; qfmt := "{{Question}}";
                       afmt := "{{Question}}" |} ];
     yaml_field_map := None; css := "" |}.

(** The schema of the test for an invalid mapping. *)
Definition invalid_mapping_schema : AnkiModelDefinition :=
  {| model_id := 123; model_name := "Invalid Mapping Model";
     fields := [ {| f_name := "Question" |}; {| f_name := "Answer" |} ];
     templates := [ {| t_name := "Card 1"; qfmt := "{{Question}}";
                       afmt := "{{Answer}}" |} ];
     yaml_field_map := Some [("q", "Question"); ("a", "NonExistentField")];
     css := "" |}.

(** The schema of the test fixtures: an explicit q/a map and a field for
    the source file. *)
Definition sample_model_definition : AnkiModelDefinition :=
  {| model_id := 1234567890; model_name := "Test Model";
     fields := [ {| f_name := "Question" |}; {| f_name := "Answer" |};
                 {| f_name := "SourceFile" |} ];
     templates := [ {| t_name := "Card 1"; qfmt := "{{Question}}";
                       afmt := "{{Question}}<hr>{{Answer}}" |} ];
     yaml_field_map := Some [("q", "Question"); ("a", "Answer")];
     css := "" |}.

(** A schema whose map uses keys of its own. *)
Definition front_back_schema : AnkiModelDefinition :=
  {| model_id := 77; model_name := "Front and back";
     fields := [ {| f_name := "Front" |}; {| f_name := "Back" |} ];
     templates := [ {| t_name := "Card 1"; qfmt := "{{Front}}";
                       afmt := "{{Back}}" |} ];
     yaml_field_map := Some [("front", "Front"); ("back", "Back")];
     css := "" |}.

(** Two templates, each referring to a field of its own that the schema
    does not declare. *)
Definition two_undefined_schema : AnkiModelDefinition :=
  {| model_id := 123; model_name := "Invalid Model";
     fields := [ {| f_name := "Question" |}; {| f_name := "Answer" |} ];
     templates := [ {| t_name := "Card 1"; qfmt := "{{Question}}{{X}}";
                       afmt := "{{Answer}}" |};
                    {| t_name := "Card 2"; qfmt := "{{Question}}";
                       afmt := "{{Y}}" |} ];
     yaml_field_map := None; css := "" |}.

(** The schema of the test for undefined template fields. *)
Definition undefined_field_schema : AnkiModelDefinition :=
  {| model_id := 123; model_name := "Invalid Model";
     fields := [ {| f_name := "Question" |} ];
     templates := [ {| t_name := "Card 1"; qfmt := "{{Question}}";
                       afmt := "{{UndefinedField}}" |} ];
     yaml_field_map := None; css := "" |}.

Definition python_block : string :=
  "q: What is Python?" +:+ newline +:+ "a: A programming language"
  +:+ newline +:+ "tags: [python]".

Definition incomplete_block : string :=
  "q: Question without answer" +:+ newline +:+ "tags: [incomplete]".

Definition list_block : string :=
  "- q: This is a list" +:+ newline +:+ "- a: Not a dict".

Definition front_back_block : string :=
  "front: F" +:+ newline +:+ "back: B".

Definition fenced (body : string) : string :=
  fence +:+ "anki" +:+ newline +:+ body +:+ newline +:+ fence +:+ newline.

(** A document with a block that lacks its answer between two complete
    blocks. *)
Definition sample_document : string :=
  "# Test Notes" +:+ newline +:+ newline +:+ fenced python_block
  +:+ newline +:+ fenced incomplete_block +:+ "More text." +:+ newline
  +:+ fenced python_block.

(** A world with that document at /notes/test.md, a document using the
    front/back keys at /notes/x.md, one image below /notes, and a YAML
    loader that knows the sample blocks. *)
Definition sample_load (body : string) : load_result :=
  if String.eqb body python_block then
    Loaded (YMap [(YStr "q", YStr "What is Python?");
                  (YStr "a", YStr "A programming language");
                  (YStr "tags", YSeq [YStr "python"])])
  else if String.eqb body incomplete_block then
    Loaded (YMap [(YStr "q", YStr "Question without answer");
                  (YStr "tags", YSeq [YStr "incomplete"])])
  else if String.eqb body list_block then
    Loaded (YSeq [YMap [(YStr "q", YStr "This is a list")];
                  YMap [(YStr "a", YStr "Not a dict")]])
  else if String.eqb body front_back_block then
    Loaded (YMap [(YStr "front", YStr "F"); (YStr "back", YStr "B")])
  else YAMLError.

Definition world_with (texts : path → option string) : World :=
  {| read_model := λ _, ModelData sample_model_definition;
     is_dir := λ _, true;
     rglob_md := λ root, [root ++ ["test.md"]];
     read_text := texts;
     yaml_safe_load := sample_load;
     lookup_image := λ _ src,
       if String.eqb src "img/pic.png" then IsFile "/notes/img/pic.png"
       else NotAFile ("/notes/" +:+ src);
     str_other := λ _, "";
     py_hash := λ _, 0%Z;
     guid_for := λ basis, basis;
     note_accepted := λ _, true;
     write_succeeds := λ _, true |}.

Definition sample_world : World :=
  world_with (λ p,
    if decide (p = ["notes"; "test.md"]) then Some sample_document
    else if decide (p = ["notes"; "x.md"])
         then Some (fenced front_back_block)
         else None).

(** The same world with a single document that has no card. *)
Definition cardless_world : World :=
  world_with (λ _, Some "# No Cards Here").

Definition sample_args : CliArgs :=
  {| notes_directory := ["notes"]; output_file := "output.apkg";
     model_definition := ["model.yaml"]; verbose := false |}.

(** A tag that loads its picture lazily: a remote src and a local
    data-src. *)
Definition lazy_tag : string :=
  Spec.img_tag " " "" "http://example.com/a.png"
    (" data-src=" +:+ dquote +:+ "img/pic.png" +:+ dquote).

(** The same src attribute spelled in capitals. *)
Definition capital_src_tag : string :=
  "<img SRC=" +:+ dquote +:+ "img/pic.png" +:+ dquote +:+ ">".

(** The image tag of the test suite. *)
Definition diagram_tag : string :=
  "<img src=" +:+ dquote +:+ "diagram.png" +:+ dquote
  +:+ " alt=" +:+ dquote +:+ "test" +:+ dquote +:+ ">".

(** The sample world without any image file. *)
Definition imageless_world : World :=
  {| read_model := read_model (World := sample_world);
     is_dir := is_dir (World := sample_world);
     rglob_md := rglob_md (World := sample_world);
     read_text := read_text (World := sample_world);
     yaml_safe_load := sample_load;
     lookup_image := λ _ src, NotAFile ("/notes/" +:+ src);
     str_other := λ _, "";
     py_hash := λ _, 0%Z;
     guid_for := λ basis, basis;
     note_accepted := λ _, true;
     write_succeeds := λ _, true |}.

(** A field with a picture that the sample world has. *)
Definition pic_field : string :=
  "See "
  +:+ Spec.img_tag " " "" "img/pic.png"
        (" alt=" +:+ dquote +:+ "diagram" +:+ dquote)
  +:+ " for details".

(** A block whose question is that field, and the sample world with a
    single document made of that block. *)
Definition picture_block : string :=
  "q: " +:+ pic_field +:+ newline +:+ "a: A diagram".

Definition picture_load (body : string) : load_result :=
  if String.eqb body picture_block then
    Loaded (YMap [(YStr "q", YStr pic_field); (YStr "a", YStr "A diagram")])
  else sample_load body.

Definition picture_world : World :=
  {| read_model := read_model (World := sample_world);
     is_dir := is_dir (World := sample_world);
     rglob_md := rglob_md (World := sample_world);
     read_text := λ _, Some (fenced picture_block);
     yaml_safe_load := picture_load;
     lookup_image := lookup_image (World := sample_world);
     str_other := λ _, "";
     py_hash := λ _, 0%Z;
     guid_for := λ basis, basis;
     note_accepted := λ _, true;
     write_succeeds := λ _, true |}.





(** A block that names its deck, the sample world with a single document
    made of that block, and the card of the block. *)
Definition deck_block : string :=
  "q: Q" +:+ newline +:+ "a: A" +:+ newline +:+ "deck: Custom".

Definition deck_load (body : string) : load_result :=
  if String.eqb body deck_block then
    Loaded (YMap [(YStr "q", YStr "Q"); (YStr "a", YStr "A");
                  (YStr "deck", YStr "Custom")])
  else sample_load body.

Definition deck_world : World :=
  {| read_model := read_model (World := sample_world);
     is_dir := is_dir (World := sample_world);
     rglob_md := rglob_md (World := sample_world);
     read_text := λ _, Some (fenced deck_block);
     yaml_safe_load := deck_load;
     lookup_image := lookup_image (World := sample_world);
     str_other := λ _, "";
     py_hash := λ _, 0%Z;
     guid_for := λ basis, basis;
     note_accepted := λ _, true;
     write_succeeds := λ _, true |}.

Definition deck_card : card :=
  {| c_fields :=
       <["SourceFile" := "test.md"]>
         (<["Answer" := "A"]> (<["Question" := "Q"]> ∅));
     c_tags := YSeq [];
     c_deck := YStr "Custom";
     c_guid_basis := "Q|A|Custom|test.md" |}.

(** A schema whose map has the key "tags", and the card that
    [python_block], which has a tags entry, gives with it. *)
Definition tagged_schema : AnkiModelDefinition :=
  {| model_id := 1234567890; model_name := "Tagged Model";
     fields := [ {| f_name := "Question" |}; {| f_name := "Answer" |};
                 {| f_name := "Tags" |} ];
     templates := [ {| t_name := "Card 1"; qfmt := "{{Question}}";
                       afmt := "{{Question}}<hr>{{Answer}}" |} ];
     yaml_field_map :=
       Some [("q", "Question"); ("a", "Answer"); ("tags", "Tags")];
     css := "" |}.

Definition tagged_card : card :=
  {| c_fields :=
       <["Answer" := "A programming language"]>
         (<["Question" := "What is Python?"]> ∅);
     c_tags := YSeq [YStr "python"];
     c_deck := YStr "notes";
     c_guid_basis :=
       "What is Python?|A programming language|notes|test.md" |}.

(** The card of [python_block] in /notes/test.md. *)
Definition python_card : card :=
  {| c_fields :=
       <["SourceFile" := "test.md"]>
         (<["Answer" := "A programming language"]>
            (<["Question" := "What is Python?"]> ∅));
     c_tags := YSeq [YStr "python"];
     c_deck := YStr "notes";
     c_guid_basis :=
       "What is Python?|A programming language|notes|test.md" |}.

Definition python_note : Note :=
  {| note_fields :=
       ["What is Python?"; "A programming language"; "test.md"];
     note_guid := "What is Python?|A programming language|notes|test.md";
     note_tags := YSeq [YStr "python"] |}.

Definition python_decks : list Deck :=
  [{| deck_id := 2000000000; deck_name := YStr "notes";
      deck_notes := [python_note] |}].

Definition python_events : list event :=
  [Log Info "Generating Anki package"; Log Debug "Created deck";
   Log Info "Found unique media files.";
   WritePackage python_decks ∅ "output.apkg";
   Log Info "Generated Anki package"].

End Samples.

(** ** Properties *)

Import PyStr Re Paths ModelFromYaml Model Main Readings Samples.

(** A decidable statement about concrete data, settled by evaluation. *)
Ltac by_computation :=
  apply (bool_decide_unpack _); vm_compute; exact I.

(** *** Deck names *)

(** Without the filename segment the code computes the deck name of the
    specification, for every file inside the scan root. *)
Lemma calculate_deck_name_without_flag (root_dir filepath : path) :
  calculate_deck_name root_dir filepath
  = Spec.deck_name_spec false root_dir filepath.
Proof.
  unfold calculate_deck_name, Spec.deck_name_spec.
  destruct (relative_to filepath root_dir) as [rel|]; simpl; [|done].
  by rewrite app_nil_r.
Qed.

(** C2. The specification and the tests ask for an include-filename flag
    that appends the filename without its extension; [calculate_deck_name]
    has no such flag: for rootdir/a/b/file.md it can only answer
    "rootdir::a::b", where the flag asks for "rootdir::a::b::file". *)
Theorem calculate_deck_name_has_no_filename_segment :
  calculate_deck_name ["rootdir"] ["rootdir"; "a"; "b"; "file.md"]
  = Some "rootdir::a::b"
  ∧ calculate_deck_name ["rootdir"] ["rootdir"; "file.md"] = Some "rootdir"
  ∧ Spec.deck_name_spec true ["rootdir"] ["rootdir"; "a"; "b"; "file.md"]
    = Some "rootdir::a::b::file"
  ∧ Spec.deck_name_spec true ["rootdir"] ["rootdir"; "file.md"]
    = Some "rootdir::file".
Proof. repeat split; reflexivity. Qed.

(** *** Schema validation *)

Lemma is_named_spec (what : string) (f : AnkiField) :
  is_named what f = true ↔ lower (f_name f) = what.
Proof. unfold is_named. apply String.eqb_eq. Qed.

Lemma find_is_named_Some (what : string) (fs : list AnkiField) (f : AnkiField) :
  find (is_named what) fs = Some f → f ∈ fs ∧ lower (f_name f) = what.
Proof.
  intros Hf. apply find_some in Hf as [Hin Hn].
  split; [by apply list_elem_of_In | by apply is_named_spec].
Qed.

Lemma find_is_named_None (what : string) (fs : list AnkiField) :
  find (is_named what) fs = None → ∀ f, f ∈ fs → lower (f_name f) ≠ what.
Proof.
  intros Hf f Hin Hl. apply list_elem_of_In in Hin.
  pose proof (find_none _ _ Hf f Hin) as Hn.
  apply is_named_spec in Hl. congruence.
Qed.

Lemma f_name_declared (m : AnkiModelDefinition) (f : AnkiField) :
  f ∈ fields m → f_name f ∈ field_names m.
Proof.
  intros Hin. unfold field_names. apply elem_of_list_to_set.
  by apply list_elem_of_fmap_2.
Qed.

(** C3. With no explicit mapping and at least two fields, the validator
    synthesizes q -> first field, a -> second field, and tags -> a field
    named "tags" in any letter case when there is one: the schema it
    returns has that map as its [yaml_field_map] and is otherwise the
    given schema.  With fewer than two fields it fails, and so does the
    validation of the schema; and a validation that succeeds returns the
    schema with the synthesized map. *)
Theorem default_yaml_field_map_synthesis (m : AnkiModelDefinition) :
  yaml_field_map m = None →
  (∀ f0 f1, fields m !! 0%nat = Some f0 → fields m !! 1%nat = Some f1 →
     ∃ fm m',
       set_default_yaml_field_map m = Ok m'
       ∧ yaml_field_map m' = Some fm
       ∧ model_id m' = model_id m ∧ model_name m' = model_name m
       ∧ fields m' = fields m ∧ templates m' = templates m
       ∧ css m' = css m
       ∧ m' = with_yaml_field_map m fm
       ∧ ((∃ t, t ∈ fields m ∧ lower (f_name t) = "tags"
              ∧ fm = [("q", f_name f0); ("a", f_name f1); ("tags", f_name t)])
          ∨ ((∀ t, t ∈ fields m → lower (f_name t) ≠ "tags")
              ∧ fm = [("q", f_name f0); ("a", f_name f1)])))
  ∧ (length (fields m) < 2 →
       set_default_yaml_field_map m = Err NoDefaultMapping
       ∧ ∃ e, model_validate m = Err e)
  ∧ (∀ m', model_validate m = Ok m' →
       set_default_yaml_field_map m = Ok m'
       ∧ ∃ fm, yaml_field_map m' = Some fm
           ∧ dict_get fm "q" = f_name <$> fields m !! 0%nat
           ∧ dict_get fm "a" = f_name <$> fields m !! 1%nat).
Proof.
  intros Hnone.
  assert (Hsynth : ∀ f0 f1,
            fields m !! 0%nat = Some f0 → fields m !! 1%nat = Some f1 →
            ∃ fm, set_default_yaml_field_map m
                  = Ok (with_yaml_field_map m fm)
              ∧ ((∃ t, t ∈ fields m ∧ lower (f_name t) = "tags"
                     ∧ fm = [("q", f_name f0); ("a", f_name f1);
                             ("tags", f_name t)])
                 ∨ ((∀ t, t ∈ fields m → lower (f_name t) ≠ "tags")
                     ∧ fm = [("q", f_name f0); ("a", f_name f1)]))).
  { intros f0 f1 H0 H1. unfold set_default_yaml_field_map. rewrite Hnone.
    destruct (fields m) as [|a [|b rest]] eqn:Hfs; simplify_eq/=.
    assert (Ha : f_name f0 ∈ field_names m).
    { apply f_name_declared. rewrite Hfs. set_solver. }
    assert (Hb : f_name f1 ∈ field_names m).
    { apply f_name_declared. rewrite Hfs. set_solver. }
    destruct (is_named "tags" f0) eqn:E0;
      [|destruct (is_named "tags" f1) eqn:E1;
        [|destruct (find (is_named "tags") rest) as [t|] eqn:Hfind]].
    + eexists. split.
      * simpl. case_decide as Hd; [reflexivity|]. exfalso. apply Hd.
        set_solver.
      * left. exists f0. split_and!; [set_solver|by apply is_named_spec|done].
    + eexists. split.
      * simpl. case_decide as Hd; [reflexivity|]. exfalso. apply Hd.
        set_solver.
      * left. exists f1. split_and!; [set_solver|by apply is_named_spec|done].
    + pose proof (find_is_named_Some _ _ _ Hfind) as [Hin Hl].
      assert (Ht : f_name t ∈ field_names m).
      { apply f_name_declared. rewrite Hfs. set_solver. }
      eexists. split.
      * simpl. case_decide as Hd; [reflexivity|]. exfalso. apply Hd.
        set_solver.
      * left. exists t. split_and!; [set_solver|done|done].
    + eexists. split.
      * simpl. case_decide as Hd; [reflexivity|]. exfalso. apply Hd.
        set_solver.
      * right. split; [|done]. intros t Ht Hl.
        apply is_named_spec in Hl.
        apply elem_of_cons in Ht as [->|Ht]; [congruence|].
        apply elem_of_cons in Ht as [->|Ht]; [congruence|].
        apply is_named_spec in Hl. by eapply find_is_named_None. }
  assert (Hshort : length (fields m) < 2 →
                   set_default_yaml_field_map m = Err NoDefaultMapping).
  { intros Hlen. unfold set_default_yaml_field_map. rewrite Hnone.
    destruct (fields m) as [|a [|b rest]]; simpl in *; [done|done|lia]. }
  split; [|split].
  - intros f0 f1 H0 H1. destruct (Hsynth f0 f1 H0 H1) as (fm & Hs & Hfm).
    exists fm, (with_yaml_field_map m fm). by split_and!.
  - intros Hlen. pose proof (Hshort Hlen) as Hset.
    split; [done|]. unfold model_validate.
    destruct (check_id_positive (model_id m) ++ _ ++ _); [|by eexists].
    unfold check_template_fields_exist.
    destruct (fields m) as [|a l] eqn:Hfs; simpl.
    + rewrite Hset. by eexists.
    + destruct (check_templates m (templates m)); simpl; [|by eexists].
      rewrite Hset. by eexists.
  - intros m' Hv.
    assert (Hs : set_default_yaml_field_map m = Ok m').
    { unfold model_validate in Hv.
      destruct (check_id_positive (model_id m) ++ _ ++ _); [|done].
      unfold check_template_fields_exist in Hv.
      destruct (fields m) as [|a l]; simpl in Hv; [done|].
      destruct (check_templates m (templates m)); simpl in Hv; done. }
    split; [done|].
    destruct (fields m) as [|f0 [|f1 rest]] eqn:Hfs;
      [by rewrite Hshort in Hs by (simpl; lia)
      |by rewrite Hshort in Hs by (simpl; lia)|].
    destruct (Hsynth f0 f1 eq_refl eq_refl) as (fm & Hs' & Hfm).
    rewrite Hs in Hs'. injection Hs' as ->. exists fm. split; [done|].
    destruct Hfm as [(t & _ & _ & ->)|[_ ->]]; by split.
Qed.

Lemma default_yaml_field_map_synthesis_witness :
  yaml_field_map two_field_schema = None
  ∧ ∃ fm m',
      set_default_yaml_field_map two_field_schema = Ok m'
      ∧ yaml_field_map m' = Some fm
      ∧ model_id m' = model_id two_field_schema
      ∧ model_name m' = model_name two_field_schema
      ∧ fields m' = fields two_field_schema
      ∧ templates m' = templates two_field_schema
      ∧ css m' = css two_field_schema
      ∧ m' = with_yaml_field_map two_field_schema fm
      ∧ ((∃ t, t ∈ fields two_field_schema ∧ lower (f_name t) = "tags"
             ∧ fm = [("q", "Front"); ("a", "Back"); ("tags", f_name t)])
         ∨ ((∀ t, t ∈ fields two_field_schema → lower (f_name t) ≠ "tags")
             ∧ fm = [("q", "Front"); ("a", "Back")])).
Proof.
  split; [reflexivity|].
  exact (proj1 (default_yaml_field_map_synthesis two_field_schema eq_refl)
           {| f_name := "Front" |} {| f_name := "Back" |} eq_refl eq_refl).
Defined.

(** *** The package builder *)

Section PackageBuilder.
Context `{World}.
Implicit Types (decks : list Deck) (log : list event) (c : card).

Lemma key_eqb_refl (v : yaml) : hashable v = true → key_eqb v v = true.
Proof.
  destruct v; simpl; try done; intros _.
  - by destruct b.
  - apply Z.eqb_refl.
  - apply String.eqb_refl.
Qed.

Lemma add_note_origin decks (name : yaml) (note : Note) d n :
  d ∈ add_note decks name note → n ∈ deck_notes d →
  n = note ∨ ∃ d0, d0 ∈ decks ∧ n ∈ deck_notes d0.
Proof.
  induction decks as [|d1 decks IH]; simpl; [by intros ?%elem_of_nil|].
  destruct (key_eqb (deck_name d1) name).
  - intros [->|Hd]%elem_of_cons Hn; simpl in *.
    + apply elem_of_app in Hn as [Hn|Hn]; [|left; set_solver].
      right. exists d1. split; [left|done].
    + right. exists d. split; [by right|done].
  - intros [->|Hd]%elem_of_cons Hn.
    + right. exists d1. split; [left|done].
    + destruct (IH Hd Hn) as [->|(d0 & ? & ?)]; [by left|].
      right. exists d0. split; [by right|done].
Qed.

Lemma add_note_keeps decks (name : yaml) (note : Note) d0 n :
  d0 ∈ decks → n ∈ deck_notes d0 →
  ∃ d, d ∈ add_note decks name note ∧ n ∈ deck_notes d.
Proof.
  induction decks as [|d1 decks IH]; simpl; [by intros ?%elem_of_nil|].
  intros Hd Hn. destruct (key_eqb (deck_name d1) name).
  - apply elem_of_cons in Hd as [->|Hd].
    + eexists. split; [left|]. simpl. apply elem_of_app. by left.
    + exists d0. split; [by right|done].
  - apply elem_of_cons in Hd as [->|Hd].
    + exists d1. split; [left|done].
    + destruct (IH Hd Hn) as (d & ? & ?). exists d. split; [by right|done].
Qed.

Lemma add_note_lands decks (name : yaml) (note : Note) :
  has_deck decks name = true →
  ∃ d, d ∈ add_note decks name note ∧ note ∈ deck_notes d.
Proof.
  induction decks as [|d1 decks IH]; simpl; [done|].
  destruct (key_eqb (deck_name d1) name); simpl.
  - intros _. eexists. split; [left|]. simpl. set_solver.
  - intros Hh. destruct (IH Hh) as (d & ? & ?).
    exists d. split; [by right|done].
Qed.

Lemma add_note_nonempty decks (name : yaml) (note : Note) :
  decks ≠ [] → add_note decks name note ≠ [].
Proof.
  destruct decks as [|d1 decks]; simpl; [done|].
  by destruct (key_eqb (deck_name d1) name).
Qed.

Lemma has_deck_snoc decks (name : yaml) (d : Deck) :
  key_eqb (deck_name d) name = true → has_deck (decks ++ [d]) name = true.
Proof.
  intros Hk. unfold has_deck. rewrite existsb_app. simpl. rewrite Hk.
  by rewrite orb_true_r.
Qed.

(** What one round of the loop leaves in [decks]: a deck for the card's
    deck name. *)
Lemma add_cards_step (anki_model : genanki_Model) (base : Z) c rest decks log
    decks' log' :
  add_cards anki_model base (c :: rest) decks log = Some (decks', log') →
  ∃ decks1 log1,
    add_cards anki_model base rest decks1 log1 = Some (decks', log')
    ∧ decks1 ≠ []
    ∧ (∀ e, e ∈ log1 → e ∈ log ∨ is_log e)
    ∧ (∀ d0 n, d0 ∈ decks → n ∈ deck_notes d0 →
         ∃ d, d ∈ decks1 ∧ n ∈ deck_notes d)
    ∧ (∀ d n, d ∈ decks1 → n ∈ deck_notes d →
         n = make_note anki_model c
         ∨ ∃ d0, d0 ∈ decks ∧ n ∈ deck_notes d0)
    ∧ (note_accepted (make_note anki_model c) = true →
         ∃ d, d ∈ decks1 ∧ make_note anki_model c ∈ deck_notes d).
Proof.
  simpl. destruct (hashable (c_deck c)) eqn:Hh; [|done].
  set (new := {| deck_id := _; deck_name := c_deck c; deck_notes := [] |}).
  set (st := if has_deck decks (c_deck c) then (decks, log) else _).
  assert (Hst : has_deck st.1 (c_deck c) = true
                ∧ st.1 ≠ []
                ∧ (∀ e, e ∈ st.2 → e ∈ log ∨ is_log e)
                ∧ (∀ d0 n, d0 ∈ decks → n ∈ deck_notes d0 →
                     d0 ∈ st.1)
                ∧ (∀ d n, d ∈ st.1 → n ∈ deck_notes d → d ∈ decks)).
  { subst st. destruct (has_deck decks (c_deck c)) eqn:Hd; simpl.
    - split_and!; [done| |by left|done|done].
      intros ->. done.
    - split_and!.
      + apply has_deck_snoc. simpl. by apply key_eqb_refl.
      + by destruct decks.
      + intros e [?|He]%elem_of_app; [by left|].
        apply list_elem_of_singleton in He as ->. by right.
      + intros d0 n Hd0 _. apply elem_of_app. by left.
      + intros d n [?|Hd']%elem_of_app Hn; [done|].
        apply list_elem_of_singleton in Hd' as ->. simpl in Hn.
        by apply elem_of_nil in Hn. }
  destruct st as [decks0 log0]. simpl in Hst.
  destruct Hst as (Hhas & Hne & Hlog & Hkeep & Horig).
  destruct (note_accepted (make_note anki_model c)) eqn:Hacc; intros Hrun.
  - eexists _, _. split; [exact Hrun|]. split_and!.
    + by apply add_note_nonempty.
    + done.
    + intros d0 n Hd0 Hn. eapply add_note_keeps; [|done]. by eapply Hkeep.
    + intros d n Hd Hn.
      destruct (add_note_origin _ _ _ _ _ Hd Hn) as [->|(d0 & Hd0 & Hn0)];
        [by left|].
      right. exists d0. split; [by eapply Horig|done].
    + intros _. by apply add_note_lands.
  - eexists _, _. split; [exact Hrun|]. split_and!.
    + done.
    + intros e [He|He]%elem_of_app; [by apply Hlog|].
      apply list_elem_of_singleton in He as ->. by right.
    + intros d0 n Hd0 Hn. exists d0. split; [by eapply Hkeep|done].
    + intros d n Hd Hn. right. exists d. split; [by eapply Horig|done].
    + done.
Qed.

Lemma add_cards_spec (anki_model : genanki_Model) (base : Z) cards :
  ∀ decks log decks' log',
  add_cards anki_model base cards decks log = Some (decks', log') →
  (cards ≠ [] ∨ decks ≠ [] → decks' ≠ [])
  ∧ (∀ e, e ∈ log' → e ∈ log ∨ is_log e)
  ∧ (∀ d0 n, d0 ∈ decks → n ∈ deck_notes d0 →
       ∃ d, d ∈ decks' ∧ n ∈ deck_notes d)
  ∧ (∀ d n, d ∈ decks' → n ∈ deck_notes d →
       (∃ c, c ∈ cards ∧ n = make_note anki_model c)
       ∨ ∃ d0, d0 ∈ decks ∧ n ∈ deck_notes d0)
  ∧ (∀ c, c ∈ cards → note_accepted (make_note anki_model c) = true →
       ∃ d, d ∈ decks' ∧ make_note anki_model c ∈ deck_notes d).
Proof.
  induction cards as [|c rest IH]; intros decks log decks' log' Hrun.
  - simpl in Hrun. simplify_eq. split_and!.
    + by intros [?|?].
    + by left.
    + intros d0 n ? ?. by exists d0.
    + intros d n ? ?. right. by exists d.
    + by intros c ?%elem_of_nil.
  - apply add_cards_step in Hrun
      as (decks1 & log1 & Hrun & Hne & Hlog & Hkeep & Horig & Hland).
    destruct (IH _ _ _ _ Hrun) as (Hne' & Hlog' & Hkeep' & Horig' & Hland').
    split_and!.
    + intros _. apply Hne'. by right.
    + intros e He. destruct (Hlog' e He) as [He1|?]; [|by right].
      by apply Hlog.
    + intros d0 n Hd0 Hn. destruct (Hkeep _ _ Hd0 Hn) as (d1 & ? & ?).
      by eapply Hkeep'.
    + intros d n Hd Hn.
      destruct (Horig' _ _ Hd Hn) as [(c' & ? & ->)|(d1 & Hd1 & Hn1)].
      * left. exists c'. split; [by right|done].
      * destruct (Horig _ _ Hd1 Hn1) as [->|?]; [|by right].
        left. exists c. split; [left|done].
    + intros c' [->|Hc']%elem_of_cons Hacc.
      * destruct (Hland Hacc) as (d1 & Hd1 & Hn1). by eapply Hkeep'.
      * by apply Hland'.
Qed.

End PackageBuilder.

Section PackageBuilderClaims.
Context `{World}.

(** The package that a run writes is the one the loop over the cards
    built, and it has a deck. *)
Lemma generate_writes_the_decks (cards : list card) (media : gset string)
    (anki_model : genanki_Model) (out : string) (events : list event)
    (decks : list Deck) (m : gset string) (f : string) :
  generate_anki_package cards media anki_model out = Some events →
  WritePackage decks m f ∈ events →
  decks ≠ [] ∧ m = media ∧ f = out
  ∧ ∃ base log, add_cards anki_model base cards []
                  [Log Info "Generating Anki package"] = Some (decks, log).
Proof.
  unfold generate_anki_package.
  destruct (add_cards _ _ _ _ _) as [[decks' log]|] eqn:Hrun; [|done].
  simpl. pose proof (add_cards_spec _ _ _ _ _ _ _ Hrun) as (_ & Hlog & _).
  assert (Hnw : WritePackage decks m f ∉ log).
  { intros Hin. destruct (Hlog _ Hin) as [Hin'|[]].
    by apply list_elem_of_singleton in Hin'. }
  destruct decks' as [|d ds]; intros ? Hw; simplify_eq.
  - apply elem_of_app in Hw as [?|Hw]; [done|].
    by apply list_elem_of_singleton in Hw.
  - assert (Hw' : WritePackage decks m f
                  = WritePackage (d :: ds) media out).
    { case_decide; rewrite !elem_of_app, !list_elem_of_singleton in Hw;
        destruct (write_succeeds out); naive_solver. }
    simplify_eq. split_and!; [done|done|done|by eexists _, _].
Qed.


(** C7. With no cards the package builder logs a warning and returns: no
    package is built or written; and [_main], when the scan found no
    card, does not even call it. *)
Theorem no_cards_no_package :
  (∀ (media : gset string) (anki_model : genanki_Model) (out : string),
     generate_anki_package [] media anki_model out
     = Some [Log Info "Generating Anki package";
             Log Warning "No cards found to generate package."])
  ∧ (∀ (media : gset string) (anki_model : genanki_Model) (out : string)
       (events : list event) (decks : list Deck) (m : gset string)
       (f : string),
       generate_anki_package [] media anki_model out = Some events →
       WritePackage decks m f ∉ events)
  ∧ (∀ (args : CliArgs) (model_def : AnkiModelDefinition)
       (all_media : gset string),
       load_and_validate_model (model_definition args) = Some model_def →
       is_dir (notes_directory args) = true →
       scan_files (notes_directory args) model_def
         (rglob_md (notes_directory args)) [] ∅ = ([], all_media) →
       _main args
       = Returned
           [Log Warning
              "No valid Anki card definitions found in scanned files.";
            Stdout "No valid Anki card definitions found."]).
Proof.
  split_and!.
  - done.
  - intros media anki_model out events decks m f Hrun Hw.
    simpl in Hrun. injection Hrun as <-.
    apply elem_of_cons in Hw as [?|Hw]; [done|].
    by apply list_elem_of_singleton in Hw.
  - intros args model_def all_media Hload Hdir Hscan.
    unfold _main. by rewrite Hload, Hdir, Hscan.
Qed.

(** C8. Every card whose note the sink accepts is in the written package
    as a note with one value per declared field, in the declared order:
    the card's value for that field, or the empty string when the card
    has none. *)
Theorem notes_follow_schema_order (cards : list card)
    (media : gset string) (model_def : AnkiModelDefinition) (out : string)
    (events : list event) (decks : list Deck) (m : gset string)
    (f : string) (c : card) :
  generate_anki_package cards media (create_genanki_model model_def) out
  = Some events →
  WritePackage decks m f ∈ events →
  c ∈ cards →
  note_accepted (make_note (create_genanki_model model_def) c) = true →
  ∃ d note,
    d ∈ decks ∧ note ∈ deck_notes d
    ∧ note_guid note = guid_for (c_guid_basis c)
    ∧ note_tags note = c_tags c
    ∧ length (note_fields note) = length (fields model_def)
    ∧ ∀ (i : nat) (fld : AnkiField),
        fields model_def !! i = Some fld →
        note_fields note !! i = Some (default "" (c_fields c !! f_name fld)).
Proof.
  intros Hrun Hw Hc Hacc.
  destruct (generate_writes_the_decks _ _ _ _ _ _ _ _ Hrun Hw)
    as (_ & _ & _ & base & log & Hadd).
  pose proof (add_cards_spec _ _ _ _ _ _ _ Hadd) as (_ & _ & _ & _ & Hland).
  destruct (Hland c Hc Hacc) as (d & Hd & Hn).
  exists d, (make_note (create_genanki_model model_def) c).
  split_and!; try done.
  - simpl. unfold ordered_fields. by rewrite !length_fmap.
  - intros i fld Hi. simpl. unfold ordered_fields.
    by rewrite !list_lookup_fmap, Hi.
Qed.

(** Conversely, a note of the written package is the note of one of the
    cards. *)
Lemma notes_come_from_cards (cards : list card) (media : gset string)
    (anki_model : genanki_Model) (out : string) (events : list event)
    (decks : list Deck) (m : gset string) (f : string) (d : Deck)
    (note : Note) :
  generate_anki_package cards media anki_model out = Some events →
  WritePackage decks m f ∈ events →
  d ∈ decks → note ∈ deck_notes d →
  ∃ c, c ∈ cards ∧ note = make_note anki_model c.
Proof.
  intros Hrun Hw Hd Hn.
  destruct (generate_writes_the_decks _ _ _ _ _ _ _ _ Hrun Hw)
    as (_ & _ & _ & base & log & Hadd).
  pose proof (add_cards_spec _ _ _ _ _ _ _ Hadd) as (_ & _ & _ & Horig & _).
  destruct (Horig _ _ Hd Hn) as [?|(d0 & Hd0 & _)]; [done|].
  by apply elem_of_nil in Hd0.
Qed.

End PackageBuilderClaims.

(** *** Card extraction *)

Section Extraction.
Context `{World}.
Implicit Types (raw : list (yaml * yaml)) (items : list (string * string))
  (cf : gmap string string) (cm : gset string) (c : card).

(** What a completed run of the field loop has done: every key but
    "tags" was present and not null, its field is populated, and every
    populated field holds what it held before or the processed text of
    such a key. *)
Lemma populate_fields_done (md_dir : path) raw items :
  ∀ cf cm cf' cm',
  populate_fields md_dir raw items cf cm = LoopDone cf' cm' →
  (∀ k f, (k, f) ∈ items → k ≠ "tags" →
     is_Some (cf' !! f) ∧ ∃ v, raw_get raw k = Some v ∧ v ≠ YNull)
  ∧ (∀ f, is_Some (cf !! f) → is_Some (cf' !! f))
  ∧ (∀ f content, cf' !! f = Some content →
       cf !! f = Some content
       ∨ ∃ k v media, (k, f) ∈ items ∧ k ≠ "tags"
           ∧ raw_get raw k = Some v ∧ v ≠ YNull
           ∧ process_field_for_images (py_str v) md_dir
             = Some (content, media)).
Proof.
  induction items as [|[k0 f0] items IH]; intros cf cm cf' cm' Hrun.
  - simpl in Hrun. simplify_eq. split_and!.
    + by intros k f ?%elem_of_nil.
    + done.
    + intros f content ?. by left.
  - simpl in Hrun. destruct (String.eqb_spec k0 "tags") as [->|Hk0].
    + destruct (IH _ _ _ _ Hrun) as (Hall & Hkeep & Horig). split_and!.
      * intros k f [?|Hin]%elem_of_cons Hk; [by simplify_eq|].
        by apply Hall.
      * done.
      * intros f content Hf.
        destruct (Horig _ _ Hf) as [?|(k & v & media & ? & ?)];
          [by left|].
        right. exists k, v, media. split; [by right|done].
    + destruct (raw_get raw k0) as [v0|] eqn:Hget; [|done].
      assert (Hv0 : v0 ≠ YNull) by (by intros ->).
      destruct (process_field_for_images (py_str v0) md_dir)
        as [[content0 media0]|] eqn:Himg; [|by destruct v0].
      assert (Hrun' : populate_fields md_dir raw items
                        (<[f0 := content0]> cf) (cm ∪ media0)
                      = LoopDone cf' cm') by (by destruct v0).
      destruct (IH _ _ _ _ Hrun') as (Hall & Hkeep & Horig). split_and!.
      * intros k f [?|Hin]%elem_of_cons Hk; [|by apply Hall].
        simplify_eq. split; [|by exists v0].
        apply Hkeep. rewrite lookup_insert_eq. by eexists.
      * intros f Hf. apply Hkeep.
        destruct (decide (f0 = f)) as [->|?].
        -- rewrite lookup_insert_eq. by eexists.
        -- by rewrite lookup_insert_ne.
      * intros f content Hf.
        destruct (Horig _ _ Hf) as [Hf'|(k & v & media & ? & ?)].
        -- destruct (decide (f0 = f)) as [->|?].
           ++ rewrite lookup_insert_eq in Hf'. simplify_eq.
              right. exists k0, v0, media0. split; [left|done].
           ++ rewrite lookup_insert_ne in Hf' by done. by left.
        -- right. exists k, v, media. split; [by right|done].
Qed.

(** A key other than "tags" that the record lacks, or gives as null,
    stops the field loop. *)
Lemma populate_fields_incomplete (md_dir : path) raw items (k f : string) :
  (k, f) ∈ items → k ≠ "tags" →
  raw_get raw k = None ∨ raw_get raw k = Some YNull →
  ∀ cf cm cf' cm', populate_fields md_dir raw items cf cm ≠ LoopDone cf' cm'.
Proof.
  intros Hin Hk Hraw cf cm cf' cm' Hrun.
  destruct (populate_fields_done _ _ _ _ _ _ _ Hrun) as (Hall & _).
  destruct (Hall _ _ Hin Hk) as (_ & v & Hv & Hnn).
  destruct Hraw as [Hraw|Hraw]; rewrite Hraw in Hv; by simplify_eq.
Qed.

Lemma dict_get_elem_of (d : list (string * string)) (key value : string) :
  dict_get d key = Some value → (key, value) ∈ d.
Proof.
  induction d as [|[k v] d IH]; simpl; [done|].
  destruct (String.eqb_spec k key) as [->|?].
  - intros [= ->]. left.
  - intros ?. right. by apply IH.
Qed.

(** What an extracted card holds, in terms of the parsed record. *)
Lemma process_block_extracted (model_def : AnkiModelDefinition)
    (md_dir : path) (rel default_deck : string) (sff : option string)
    (body : string) c (media : gset string) :
  process_block model_def md_dir rel default_deck sff body
  = Extracted c media →
  ∃ raw field_map cf,
    yaml_safe_load body = Loaded (YMap raw)
    ∧ yaml_field_map model_def = Some field_map
    ∧ populate_fields md_dir raw field_map ∅ ∅ = LoopDone cf media
    ∧ c_fields c = match sff with
                   | Some n => if String.eqb n "" then cf
                               else <[n := rel]> cf
                   | None => cf
                   end
    ∧ c_tags c = default (YSeq []) (raw_get raw "tags")
    ∧ c_deck c = default (YStr default_deck) (raw_get raw "deck")
    ∧ c_guid_basis c
      = format_get (c_fields c !! default "" (dict_get field_map "q"))
        +:+ "|" +:+
        format_get (c_fields c !! default "" (dict_get field_map "a"))
        +:+ "|" +:+ py_str (c_deck c) +:+ "|" +:+ rel.
Proof.
  unfold process_block. intros Hb.
  destruct (yaml_safe_load body) as [| |v]; [done|done|].
  destruct v as [| | | | |raw|]; try done.
  destruct (yaml_field_map model_def) as [field_map|]; [|done].
  destruct (populate_fields md_dir raw field_map ∅ ∅)
    as [| |cf cm] eqn:Hloop; try done.
  injection Hb as <- <-. by exists raw, field_map, cf.
Qed.

(** The cards of a document are the cards extracted from its blocks, in
    the order of the blocks. *)
Lemma process_blocks_cards (model_def : AnkiModelDefinition) (md_dir : path)
    (rel default_deck : string) (sff : option string) (blocks : list string) :
  ∀ (cards : list card) (all_media : gset string) c,
  c ∈ (process_blocks model_def md_dir rel default_deck sff blocks
         cards all_media).1 →
  c ∈ cards
  ∨ ∃ body media, body ∈ blocks
      ∧ process_block model_def md_dir rel default_deck sff body
        = Extracted c media.
Proof.
  induction blocks as [|b blocks IH]; intros cards all_media c;
    simpl; [by left|].
  destruct (process_block model_def md_dir rel default_deck sff b)
    as [why|c0 media0] eqn:Hb; intros Hc.
  - destruct (IH _ _ _ Hc) as [?|(body & media & ? & ?)]; [by left|].
    right. exists body, media. split; [by right|done].
  - destruct (IH _ _ _ Hc) as [Hc'|(body & media & ? & ?)].
    + apply elem_of_app in Hc' as [?|Hc']; [by left|].
      apply list_elem_of_singleton in Hc' as ->.
      right. exists b, media0. split; [left|done].
    + right. exists body, media. split; [by right|done].
Qed.

(** A skipped block leaves no trace in the result. *)
Lemma process_blocks_skip (model_def : AnkiModelDefinition) (md_dir : path)
    (rel default_deck : string) (sff : option string)
    (before after : list string) (b : string) (why : skip_reason) :
  process_block model_def md_dir rel default_deck sff b = Skipped why →
  ∀ (cards : list card) (all_media : gset string),
  process_blocks model_def md_dir rel default_deck sff
    (before ++ b :: after) cards all_media
  = process_blocks model_def md_dir rel default_deck sff
      (before ++ after) cards all_media.
Proof.
  intros Hb. induction before as [|b0 before IH]; intros cards all_media;
    simpl.
  - by rewrite Hb.
  - destruct (process_block model_def md_dir rel default_deck sff b0);
      apply IH.
Qed.

End Extraction.

Section ExtractionClaims.
Context `{World}.
Implicit Types (raw : list (yaml * yaml)) (c : card).

(** The cards of a file come from its blocks, processed with the file's
    relative path and default deck name. *)
Lemma find_anki_cards_in_file_cards (filepath root_dir : path)
    (model_def : AnkiModelDefinition) (cards : list card)
    (media : gset string) c :
  find_anki_cards_in_file filepath root_dir model_def = Some (cards, media) →
  c ∈ cards →
  ∃ rel default_deck body card_media,
    relative_to filepath root_dir = Some rel
    ∧ calculate_deck_name root_dir filepath = Some default_deck
    ∧ process_block model_def (parent filepath) (str_relative rel)
        default_deck (source_file_field model_def) body
      = Extracted c card_media.
Proof.
  unfold find_anki_cards_in_file. intros Hfind Hc.
  destruct (calculate_deck_name root_dir filepath) as [default_deck|];
    [|done].
  destruct (relative_to filepath root_dir) as [rel|]; [|done].
  simpl in Hfind. destruct (read_text filepath) as [content|].
  - injection Hfind as Hcards. apply (f_equal fst) in Hcards.
    simpl in Hcards. rewrite <- Hcards in Hc.
    apply process_blocks_cards in Hc
      as [?%elem_of_nil|(body & card_media & _ & Hb)]; [done|].
    by exists rel, default_deck, body, card_media.
  - injection Hfind as <- _. by apply elem_of_nil in Hc.
Qed.

(** The card comes from one of the blocks of the document. *)
Lemma find_anki_cards_in_file_block (filepath root_dir : path)
    (model_def : AnkiModelDefinition) (cards : list card)
    (media : gset string) c :
  find_anki_cards_in_file filepath root_dir model_def = Some (cards, media) →
  c ∈ cards →
  ∃ rel default_deck content body card_media,
    relative_to filepath root_dir = Some rel
    ∧ calculate_deck_name root_dir filepath = Some default_deck
    ∧ read_text filepath = Some content
    ∧ body ∈ finditer ANKI_BLOCK_RE content
    ∧ process_block model_def (parent filepath) (str_relative rel)
        default_deck (source_file_field model_def) body
      = Extracted c card_media.
Proof.
  unfold find_anki_cards_in_file. intros Hfind Hc.
  destruct (calculate_deck_name root_dir filepath) as [default_deck|];
    [|done].
  destruct (relative_to filepath root_dir) as [rel|]; [|done].
  simpl in Hfind. destruct (read_text filepath) as [content|].
  - injection Hfind as Hcards. apply (f_equal fst) in Hcards.
    simpl in Hcards. rewrite <- Hcards in Hc.
    apply process_blocks_cards in Hc
      as [?%elem_of_nil|(body & card_media & Hin & Hb)]; [done|].
    by exists rel, default_deck, content, body, card_media.
  - injection Hfind as <- _. by apply elem_of_nil in Hc.
Qed.

(** C1, as the code has it.  The identity basis of an extracted card is
    question part | answer part | deck | relative path, where a part is
    the content of the field mapped from the key and, for an unmapped
    key, the text "None" (the formatted lookup of the empty field name).
    The deck is read from the card's own block, one of the blocks of the
    document: its deck entry if the block has one, whatever its value,
    and the computed default only if it has none; it is rendered by
    str(). *)
Theorem identity_basis_of_extracted_card (filepath root_dir : path)
    (model_def : AnkiModelDefinition) (field_map : list (string * string))
    (cards : list card) (media : gset string) c :
  find_anki_cards_in_file filepath root_dir model_def = Some (cards, media) →
  yaml_field_map model_def = Some field_map →
  c ∈ cards →
  ∃ (rel : path) (default_deck q_text a_text content body : string)
    (raw : list (yaml * yaml)) (card_media : gset string),
    relative_to filepath root_dir = Some rel
    ∧ calculate_deck_name root_dir filepath = Some default_deck
    ∧ c_guid_basis c
      = q_text +:+ "|" +:+ a_text +:+ "|" +:+ py_str (c_deck c)
        +:+ "|" +:+ str_relative rel
    ∧ Spec.identity_part field_map c "q" q_text
    ∧ Spec.identity_part field_map c "a" a_text
    ∧ read_text filepath = Some content
    ∧ body ∈ finditer ANKI_BLOCK_RE content
    ∧ process_block model_def (parent filepath) (str_relative rel)
        default_deck (source_file_field model_def) body
      = Extracted c card_media
    ∧ yaml_safe_load body = Loaded (YMap raw)
    ∧ c_deck c = match raw_get raw "deck" with
                 | Some deck => deck
                 | None => YStr default_deck
                 end.
Proof.
  intros Hfind Hmap Hc.
  destruct (find_anki_cards_in_file_block _ _ _ _ _ _ Hfind Hc)
    as (rel & default_deck & content & body & card_media & Hrel & Hdeck
        & Hread & Hin & Hb).
  pose proof Hb as Hblock.
  apply process_block_extracted in Hb
    as (raw & fm & cf & Hload & Hfm & Hloop & Hfields & _ & Hd & Hguid).
  rewrite Hmap in Hfm. injection Hfm as <-.
  destruct (populate_fields_done _ _ _ _ _ _ _ Hloop) as (Hall & _ & _).
  assert (Hpart : ∀ key, key ≠ "tags" →
            Spec.identity_part field_map c key
              (format_get
                 (c_fields c !! default "" (dict_get field_map key)))).
  { intros key Hkey. unfold Spec.identity_part.
    destruct (dict_get field_map key) as [fname|] eqn:Hget; simpl; [|done].
    apply dict_get_elem_of in Hget.
    destruct (Hall _ _ Hget Hkey) as ([content' Hcontent] & _).
    assert (Hsome : is_Some (c_fields c !! fname)).
    { rewrite Hfields. destruct (source_file_field model_def) as [n|];
        [|by eexists].
      destruct (String.eqb n ""); [by eexists|].
      destruct (decide (n = fname)) as [->|?].
      - rewrite lookup_insert_eq. by eexists.
      - rewrite lookup_insert_ne by done. by eexists. }
    destruct Hsome as [text ->]. done. }
  eexists rel, default_deck, _, _, content, body, raw, card_media.
  split_and!; [done|done|exact Hguid| | |done|done|done|done|].
  - by apply Hpart.
  - by apply Hpart.
  - rewrite Hd. by destruct (raw_get raw "deck").
Qed.

(** C6. A block that does not load, that loads as something else than a
    mapping, or that lacks a mapped key other than "tags", gives no card;
    the extraction returns, and returns what it returns for the document
    without that block. *)
Theorem unusable_block_is_skipped (filepath root_dir : path)
    (model_def : AnkiModelDefinition) (rel : path) (content : string)
    (before after : list string) (b : string) :
  relative_to filepath root_dir = Some rel →
  read_text filepath = Some content →
  finditer ANKI_BLOCK_RE content = before ++ b :: after →
  Spec.unusable_block model_def b →
  ∃ default_deck,
    calculate_deck_name root_dir filepath = Some default_deck
    ∧ (∃ why, process_block model_def (parent filepath) (str_relative rel)
                default_deck (source_file_field model_def) b
              = Skipped why)
    ∧ find_anki_cards_in_file filepath root_dir model_def
      = Some (process_blocks model_def (parent filepath)
                (str_relative rel) default_deck
                (source_file_field model_def) (before ++ after) [] ∅).
Proof.
  intros Hrel Hread Hblocks Hbad.
  unfold find_anki_cards_in_file, calculate_deck_name.
  rewrite Hrel, Hread, Hblocks. simpl.
  eexists. split; [reflexivity|].
  match goal with
  | |- (∃ why, process_block ?m ?d ?r ?dd ?s b = _) ∧ _ =>
      assert (Hskip : ∃ why, process_block m d r dd s b = Skipped why)
  end.
  { unfold process_block.
    destruct Hbad as [->|[->|[(v & -> & Hv)|
                          (raw & fm & k & f & -> & -> & Hin & Hk & Hraw)]]].
    - by eexists.
    - by eexists.
    - destruct v; try by eexists. by destruct (Hv entries).
    - pose proof (populate_fields_incomplete (parent filepath) raw fm k f
                    Hin Hk Hraw ∅ ∅) as Hnd.
      destruct (populate_fields (parent filepath) raw fm ∅ ∅)
        as [| |cf cm]; [by eexists|by eexists|by destruct (Hnd cf cm)]. }
  split; [done|]. destruct Hskip as [why Hskip].
  f_equal. by eapply process_blocks_skip.
Qed.

(** The field loop reads the record only at the keys of the map other
    than "tags". *)
Lemma populate_fields_ext (md_dir : path) raw raw'
    (items : list (string * string)) :
  (∀ k, k ≠ "tags" → raw_get raw' k = raw_get raw k) →
  ∀ (cf : gmap string string) (cm : gset string),
  populate_fields md_dir raw' items cf cm
  = populate_fields md_dir raw items cf cm.
Proof.
  intros Hsame. induction items as [|[k0 f0] items IH]; intros cf cm;
    simpl; [done|].
  destruct (String.eqb_spec k0 "tags") as [->|Hk0]; [apply IH|].
  rewrite (Hsame _ Hk0). destruct (raw_get raw k0) as [v|]; [|done].
  destruct v; try done;
    destruct (process_field_for_images _ md_dir) as [[? ?]|]; try done;
    apply IH.
Qed.

(** Where the content of a field of an extracted card comes from: the
    source path, or the processed text of a key other than "tags". *)
Lemma extracted_fields_provenance (model_def : AnkiModelDefinition)
    (md_dir : path) (rel default_deck : string) (sff : option string)
    (body : string) c (media : gset string) :
  process_block model_def md_dir rel default_deck sff body
  = Extracted c media →
  ∃ raw field_map,
    yaml_safe_load body = Loaded (YMap raw)
    ∧ yaml_field_map model_def = Some field_map
    ∧ ∀ f content, c_fields c !! f = Some content →
        (sff = Some f ∧ content = rel)
        ∨ ∃ k v media', (k, f) ∈ field_map ∧ k ≠ "tags"
            ∧ raw_get raw k = Some v ∧ v ≠ YNull
            ∧ process_field_for_images (py_str v) md_dir
              = Some (content, media').
Proof.
  intros Hb.
  apply process_block_extracted in Hb
    as (raw & fm & cf & Hload & Hfm & Hloop & Hfields & _).
  destruct (populate_fields_done _ _ _ _ _ _ _ Hloop) as (_ & _ & Horig).
  exists raw, fm. split_and!; [done|done|].
  intros f content Hf. rewrite Hfields in Hf.
  assert (Hcf : cf !! f = Some content →
            ∃ k v media', (k, f) ∈ fm ∧ k ≠ "tags"
              ∧ raw_get raw k = Some v ∧ v ≠ YNull
              ∧ process_field_for_images (py_str v) md_dir
                = Some (content, media')).
  { intros Hcf. destruct (Horig _ _ Hcf) as [He|?]; [|done].
    by rewrite lookup_empty in He. }
  destruct sff as [n|]; [|right; by apply Hcf].
  destruct (String.eqb n ""); [right; by apply Hcf|].
  destruct (decide (n = f)) as [->|?].
  - rewrite lookup_insert_eq in Hf. injection Hf as <-. by left.
  - rewrite lookup_insert_ne in Hf by done. right. by apply Hcf.
Qed.

(** C9. The tags of an extracted card are the block's tags entry, kept
    apart from the fields: every field content is the source path or the
    processed text of a key other than "tags"; a field that only "tags"
    maps to stays unpopulated; and a block that differs only at "tags"
    gives the same fields. *)
Theorem tags_stay_out_of_fields (model_def : AnkiModelDefinition)
    (md_dir : path) (rel default_deck : string) (sff : option string)
    (body : string) c (media : gset string) :
  process_block model_def md_dir rel default_deck sff body
  = Extracted c media →
  ∃ raw field_map,
    yaml_safe_load body = Loaded (YMap raw)
    ∧ yaml_field_map model_def = Some field_map
    ∧ c_tags c = default (YSeq []) (raw_get raw "tags")
    ∧ (∀ f content, c_fields c !! f = Some content →
         (sff = Some f ∧ content = rel)
         ∨ ∃ k v media', (k, f) ∈ field_map ∧ k ≠ "tags"
             ∧ raw_get raw k = Some v ∧ v ≠ YNull
             ∧ process_field_for_images (py_str v) md_dir
               = Some (content, media'))
    ∧ (∀ tags_field, dict_get field_map "tags" = Some tags_field →
         sff ≠ Some tags_field →
         (∀ k, (k, tags_field) ∈ field_map → k = "tags") →
         c_fields c !! tags_field = None)
    ∧ (∀ body' raw', yaml_safe_load body' = Loaded (YMap raw') →
         (∀ k, k ≠ "tags" → raw_get raw' k = raw_get raw k) →
         ∃ c', process_block model_def md_dir rel default_deck sff body'
               = Extracted c' media
             ∧ c_fields c' = c_fields c
             ∧ c_tags c' = default (YSeq []) (raw_get raw' "tags")).
Proof.
  intros Hb.
  destruct (extracted_fields_provenance _ _ _ _ _ _ _ _ Hb)
    as (raw0 & fm0 & Hload0 & Hfm0 & Hprov).
  apply process_block_extracted in Hb
    as (raw & fm & cf & Hload & Hfm & Hloop & Hfields & Htags & _ & _).
  rewrite Hload in Hload0. injection Hload0 as <-.
  rewrite Hfm in Hfm0. injection Hfm0 as <-.
  exists raw, fm. split_and!; [done|done|done|done| |].
  - intros tf Htf Hsff Honly.
    destruct (c_fields c !! tf) as [content|] eqn:Hc; [|done].
    destruct (Hprov _ _ Hc) as [[? _]|(k & v & m' & Hin & Hk & _)];
      [done|]. by destruct (Hk (Honly _ Hin)).
  - intros body' raw' Hload' Hsame.
    unfold process_block. rewrite Hload', Hfm.
    rewrite (populate_fields_ext md_dir raw raw' fm Hsame), Hloop.
    eexists. split; [reflexivity|]. split; [|reflexivity].
    simpl. by rewrite Hfields.
Qed.

End ExtractionClaims.

(** *** Validated schemas *)

Lemma check_template_fields_exist_same (m m' : AnkiModelDefinition) :
  check_template_fields_exist m = Ok m' → m' = m.
Proof.
  unfold check_template_fields_exist.
  destruct (fields m); [by intros [= <-]|].
  destruct (check_templates m (templates m)); simpl; [by intros [= <-]|done].
Qed.

(** After validation the schema has a key-to-field map, and every field the
    map names is declared. *)
Lemma set_default_yaml_field_map_declared (m m' : AnkiModelDefinition) :
  set_default_yaml_field_map m = Ok m' →
  fields m' = fields m
  ∧ ∃ field_map, yaml_field_map m' = Some field_map
      ∧ ∀ k f, (k, f) ∈ field_map → f ∈ field_names m'.
Proof.
  unfold set_default_yaml_field_map.
  set (m1 := match yaml_field_map m with None => _ | Some _ => Ok m end).
  assert (H1 : ∀ m2, m1 = Ok m2 →
            fields m2 = fields m ∧ is_Some (yaml_field_map m2)).
  { subst m1. intros m2. destruct (yaml_field_map m) as [fm|] eqn:Hfm.
    - intros [= <-]. split; [done|]. rewrite Hfm. by eexists.
    - destruct (fields m) as [|f0 [|f1 rest]] eqn:Hfs; try done.
      intros [= <-]. simpl. split; [done|by eexists]. }
  destruct m1 as [m2|e]; simpl; [|done].
  destruct (H1 m2 eq_refl) as (Hfs & [fm Hfm]).
  case_decide as Hmiss; [|done]. intros [= <-]. split; [done|].
  exists fm. split; [done|]. intros k f Hin.
  rewrite Hfm in Hmiss. simpl in Hmiss.
  assert (Hf : f ∈ (list_to_set fm.*2 : gset string)).
  { apply elem_of_list_to_set, list_elem_of_fmap. by exists (k, f). }
  destruct (decide (f ∈ field_names m2)) as [?|Hn]; [done|].
  assert (f ∈ (∅ : gset string)); [|set_solver].
  rewrite <- Hmiss. set_solver.
Qed.

Lemma model_validate_declared (m m' : AnkiModelDefinition) :
  model_validate m = Ok m' →
  ∃ field_map, yaml_field_map m' = Some field_map
    ∧ ∀ k f, (k, f) ∈ field_map → f ∈ field_names m'.
Proof.
  unfold model_validate.
  destruct (check_id_positive (model_id m) ++ _ ++ _); [|done].
  destruct (check_template_fields_exist m) as [m1|] eqn:Hc; simpl; [|done].
  intros Hs. by apply set_default_yaml_field_map_declared in Hs as [_ ?].
Qed.

Section DeclaredFields.
Context `{World}.

(** C10. With a validated schema, every key of an extracted card's field
    mapping is a declared field: the fields the map names were checked
    at validation, and the only other key is the declared field named
    "SourceFile" in any letter case. *)
Theorem card_fields_are_declared (filepath root_dir : path)
    (raw_model model_def : AnkiModelDefinition) (cards : list card)
    (media : gset string) (c : card) :
  model_validate raw_model = Ok model_def →
  find_anki_cards_in_file filepath root_dir model_def = Some (cards, media) →
  c ∈ cards →
  dom (c_fields c) ⊆ field_names model_def
  ∧ ∀ f, f ∈ dom (c_fields c) →
      (∃ k field_map, yaml_field_map model_def = Some field_map
         ∧ (k, f) ∈ field_map ∧ k ≠ "tags")
      ∨ (lower f = "sourcefile" ∧ source_file_field model_def = Some f).
Proof.
  intros Hvalid Hfind Hc.
  destruct (model_validate_declared _ _ Hvalid) as (fm & Hfm & Hdecl).
  destruct (find_anki_cards_in_file_cards _ _ _ _ _ _ Hfind Hc)
    as (rel & default_deck & body & card_media & _ & _ & Hb).
  apply extracted_fields_provenance in Hb
    as (raw & fm' & _ & Hfm' & Hprov).
  rewrite Hfm in Hfm'. injection Hfm' as <-.
  assert (Hkeys : ∀ f, f ∈ dom (c_fields c) →
            (∃ k field_map, yaml_field_map model_def = Some field_map
               ∧ (k, f) ∈ field_map ∧ k ≠ "tags")
            ∨ (lower f = "sourcefile"
               ∧ source_file_field model_def = Some f)).
  { intros f [content Hf]%elem_of_dom.
    destruct (Hprov _ _ Hf) as [[Hs _]|(k & v & m' & Hin & Hk & _)].
    - right. split; [|done]. unfold source_file_field in Hs.
      destruct (find _ _) as [fld|] eqn:Hfind'; [|done].
      injection Hs as <-. by apply find_is_named_Some in Hfind' as [_ ?].
    - left. by exists k, fm. }
  split; [|done]. intros f Hf.
  destruct (Hkeys f Hf) as [(k & fm' & Hfm' & Hin & _)|[_ Hs]].
  - rewrite Hfm in Hfm'. injection Hfm' as <-. by eapply Hdecl.
  - unfold source_file_field in Hs.
    destruct (find _ _) as [fld|] eqn:Hfind'; [|done].
    injection Hs as <-. apply find_is_named_Some in Hfind' as [Hin _].
    by apply f_name_declared.
Qed.

End DeclaredFields.

(** *** Template cross-references *)

Lemma missing_fields_empty (m : AnkiModelDefinition) (fmt : string) :
  missing_fields m fmt = ∅ ↔ Spec.all_declared m fmt.
Proof.
  unfold missing_fields, Spec.all_declared. split.
  - intros Hm name Hr.
    destruct (decide (name ∈ BUILTIN_FIELDS)) as [?|Hb]; [by left|].
    destruct (decide (name ∈ field_names m)) as [?|Hf]; [by right|].
    assert (name ∈ (∅ : gset string)); [|set_solver].
    rewrite <- Hm. set_solver.
  - intros Hall. apply set_eq. intros name. split; [|set_solver].
    intros Hin. destruct (Hall name) as [?|?]; set_solver.
Qed.

Lemma missing_fields_elem (m : AnkiModelDefinition) (fmt name : string) :
  name ∈ missing_fields m fmt ↔
  name ∈ referenced_fields fmt
  ∧ (name ∉ BUILTIN_FIELDS) ∧ (name ∉ field_names m).
Proof. unfold missing_fields. set_solver. Qed.

(** The loop over the templates stops at the first format string with an
    undefined field. *)
Lemma check_templates_first (m : AnkiModelDefinition)
    (before after : list AnkiTemplate) (t : AnkiTemplate) :
  (∀ t0, t0 ∈ before →
     Spec.all_declared m (qfmt t0) ∧ Spec.all_declared m (afmt t0)) →
  check_templates m (before ++ t :: after)
  = if decide (missing_fields m (qfmt t) = ∅) then
      if decide (missing_fields m (afmt t) = ∅) then check_templates m after
      else Err (UndefinedTemplateFields (t_name t) Afmt
                  (missing_fields m (afmt t)))
    else Err (UndefinedTemplateFields (t_name t) Qfmt
                (missing_fields m (qfmt t))).
Proof.
  induction before as [|t0 before IH]; intros Hfine; simpl; [done|].
  destruct (Hfine t0) as [Hq Ha]; [left|].
  apply missing_fields_empty in Hq, Ha.
  rewrite !decide_True by done. apply IH. intros t1 ?. apply Hfine. by right.
Qed.

Lemma check_templates_cases (m : AnkiModelDefinition) (ts : list AnkiTemplate) :
  (check_templates m ts = Ok tt
   ∧ ∀ t, t ∈ ts →
       Spec.all_declared m (qfmt t) ∧ Spec.all_declared m (afmt t))
  ∨ ∃ before t after side,
      ts = before ++ t :: after
      ∧ (∀ t0, t0 ∈ before →
           Spec.all_declared m (qfmt t0) ∧ Spec.all_declared m (afmt t0))
      ∧ match side with
        | Qfmt => missing_fields m (qfmt t) ≠ ∅
        | Afmt => Spec.all_declared m (qfmt t)
                  ∧ missing_fields m (afmt t) ≠ ∅
        end
      ∧ check_templates m ts
        = Err (UndefinedTemplateFields (t_name t) side
                 (missing_fields m match side with
                                   | Qfmt => qfmt t
                                   | Afmt => afmt t
                                   end)).
Proof.
  induction ts as [|t ts IH]; simpl.
  - left. split; [done|]. by intros t ?%elem_of_nil.
  - destruct (decide (missing_fields m (qfmt t) = ∅)) as [Hq|Hq].
    + destruct (decide (missing_fields m (afmt t) = ∅)) as [Ha|Ha].
      * apply missing_fields_empty in Hq, Ha.
        destruct IH as [[Hok Hall]|
                        (before & t1 & after & side & -> & Hb & Hs & He)].
        -- left. split; [done|].
           intros t0 [->|?]%elem_of_cons; [done|by apply Hall].
        -- right. exists (t :: before), t1, after, side.
           refine (conj eq_refl (conj _ (conj Hs _))).
           ++ intros t0 [->|?]%elem_of_cons; [done|by apply Hb].
           ++ done.
      * right. exists [], t, ts, Afmt.
        refine (conj eq_refl (conj _ (conj _ _))).
        -- by intros t0 ?%elem_of_nil.
        -- split; [by apply missing_fields_empty|done].
        -- done.
    + right. exists [], t, ts, Qfmt.
      refine (conj eq_refl (conj _ (conj Hq _))).
      * by intros t0 ?%elem_of_nil.
      * done.
Qed.

(** C4, as the code has it.  The check passes when every name the
    templates refer to is declared or built in.  A reference to any other
    name makes the validation fail; when the model id and the field list
    are valid, the error is the one of the first format string with such a
    reference, and names exactly the undefined fields of that format
    string. *)
Theorem undefined_template_fields_rejected (m : AnkiModelDefinition) :
  ((∀ t, t ∈ templates m →
      Spec.all_declared m (qfmt t) ∧ Spec.all_declared m (afmt t)) →
   check_template_fields_exist m = Ok m)
  ∧ (∀ name, Spec.undefined_reference m name →
       ∃ e, model_validate m = Err e
         ∧ (((model_id m ≤ 0)%Z ∨ fields m = [])
            ∨ ∃ before t after side fmt,
                templates m = before ++ t :: after
                ∧ (∀ t0, t0 ∈ before →
                     Spec.all_declared m (qfmt t0)
                     ∧ Spec.all_declared m (afmt t0))
                ∧ match side with
                  | Qfmt => fmt = qfmt t
                  | Afmt => fmt = afmt t ∧ Spec.all_declared m (qfmt t)
                  end
                ∧ missing_fields m fmt ≠ ∅
                ∧ e = UndefinedTemplateFields (t_name t) side
                        (missing_fields m fmt)
                ∧ ∀ n, n ∈ missing_fields m fmt ↔
                       n ∈ referenced_fields fmt
                       ∧ (n ∉ BUILTIN_FIELDS) ∧ (n ∉ field_names m))).
Proof.
  split.
  - intros Hall. unfold check_template_fields_exist.
    destruct (fields m); [done|].
    destruct (check_templates_cases m (templates m))
      as [[-> _]|(before & t & after & side & Hts & _ & Hs & _)]; [done|].
    destruct (Hall t) as [Hq Ha]; [rewrite Hts; set_solver|].
    apply missing_fields_empty in Hq, Ha. by destruct side as [|]; destruct Hs.
  - intros name (t & Ht & Hname & Hnb & Hnf).
    unfold model_validate, check_id_positive.
    destruct (Z.leb_spec (model_id m) 0) as [Hid|Hid];
      [eexists; split; [reflexivity|left; by left]|].
    destruct (fields m) as [|f0 fs] eqn:Hfs;
      [eexists; split; [reflexivity|left; by right]|].
    destruct (templates m) as [|t0 ts0] eqn:Hts; [by apply elem_of_nil in Ht|].
    simpl. unfold check_template_fields_exist. rewrite Hfs, Hts.
    destruct (check_templates_cases m (t0 :: ts0))
      as [[_ Hall]|(before & t1 & after & side & Hdec & Hb & Hs & He)].
    + exfalso. destruct (Hall t Ht) as [Hq Ha].
      apply elem_of_union in Hname as [Hr|Hr];
        [destruct (Hq _ Hr)|destruct (Ha _ Hr)]; done.
    + rewrite He. simpl. eexists. split; [reflexivity|]. right.
      exists before, t1, after, side, (match side with
                                       | Qfmt => qfmt t1
                                       | Afmt => afmt t1
                                       end).
      refine (conj Hdec (conj Hb (conj _ (conj _ (conj eq_refl _))))).
      * destruct side; [done|]. by destruct Hs.
      * destruct side; [done|]. by destruct Hs.
      * intros n. apply missing_fields_elem.
Qed.

Lemma undefined_template_fields_rejected_witness :
  Spec.undefined_reference undefined_field_schema "UndefinedField"
  ∧ ∃ e, model_validate undefined_field_schema = Err e.
Proof.
  assert (Hu : Spec.undefined_reference undefined_field_schema
                 "UndefinedField").
  { eexists. split; [left|]. split_and!.
    - by_computation.
    - by_computation.
    - by apply (bool_decide_unpack _). }
  split; [done|].
  destruct (proj2 (undefined_template_fields_rejected undefined_field_schema)
              _ Hu) as (e & He & _).
  by exists e.
Defined.

(** C4 as the specification words it does not hold: of two templates with
    an undefined field each, the error names the field of the first one
    only. *)
Lemma error_names_first_undefined_field_only :
  model_validate two_undefined_schema
  = Err (UndefinedTemplateFields "Card 1" Qfmt {["X"]})
  ∧ Spec.undefined_reference two_undefined_schema "Y"
  ∧ ¬ Spec.error_names_each_undefined_field two_undefined_schema.
Proof.
  assert (Hv : model_validate two_undefined_schema
               = Err (UndefinedTemplateFields "Card 1" Qfmt {["X"]})).
  { by vm_compute. }
  assert (Hu : Spec.undefined_reference two_undefined_schema "Y").
  { exists {| t_name := "Card 2"; qfmt := "{{Question}}"; afmt := "{{Y}}" |}.
    split_and!.
    - right. left.
    - by_computation.
    - by_computation.
    - by apply (bool_decide_unpack _). }
  split_and!; [done|done|].
  intros Hall. destruct (Hall _ Hu) as (tn & side & missing & He & Hin).
  rewrite Hv in He. injection He as <- <- <-.
  by apply elem_of_singleton in Hin.
Qed.

(** *** The sample documents *)

Lemma sample_file_cards :
  find_anki_cards_in_file (H := sample_world) ["notes"; "test.md"] ["notes"]
    sample_model_definition
  = Some ([python_card; python_card], ∅).
Proof. by vm_compute. Qed.

Lemma sample_file_blocks :
  finditer ANKI_BLOCK_RE sample_document
  = [python_block] ++ incomplete_block :: [python_block].
Proof. by vm_compute. Qed.

Lemma python_block_card :
  process_block (H := sample_world) sample_model_definition ["notes"]
    "test.md" "notes" (Some "SourceFile") python_block
  = Extracted python_card ∅.
Proof. by vm_compute. Qed.

Lemma sample_model_definition_valid :
  model_validate sample_model_definition = Ok sample_model_definition.
Proof. by vm_compute. Qed.

Lemma python_package :
  generate_anki_package (H := sample_world) [python_card] ∅
    (create_genanki_model sample_model_definition) "output.apkg"
  = Some python_events.
Proof. by vm_compute. Qed.

Lemma deck_file_cards :
  find_anki_cards_in_file (H := deck_world) ["notes"; "test.md"] ["notes"]
    sample_model_definition
  = Some ([deck_card], ∅).
Proof. by vm_compute. Qed.

Lemma identity_basis_of_extracted_card_witness :
  find_anki_cards_in_file (H := deck_world) ["notes"; "test.md"] ["notes"]
    sample_model_definition
  = Some ([deck_card], ∅)
  ∧ yaml_field_map sample_model_definition
    = Some [("q", "Question"); ("a", "Answer")]
  ∧ deck_card ∈ [deck_card]
  ∧ calculate_deck_name ["notes"] ["notes"; "test.md"] = Some "notes"
  ∧ c_deck deck_card = YStr "Custom"
  ∧ c_guid_basis deck_card = "Q|A|Custom|test.md"
  ∧ ∃ (rel : path) (default_deck q_text a_text content body : string)
      (raw : list (yaml * yaml)) (card_media : gset string),
      relative_to ["notes"; "test.md"] ["notes"] = Some rel
      ∧ calculate_deck_name ["notes"] ["notes"; "test.md"] = Some default_deck
      ∧ c_guid_basis deck_card
        = q_text +:+ "|" +:+ a_text +:+ "|"
          +:+ py_str (H := deck_world) (c_deck deck_card)
          +:+ "|" +:+ str_relative rel
      ∧ Spec.identity_part [("q", "Question"); ("a", "Answer")]
          deck_card "q" q_text
      ∧ Spec.identity_part [("q", "Question"); ("a", "Answer")]
          deck_card "a" a_text
      ∧ read_text (World := deck_world) ["notes"; "test.md"] = Some content
      ∧ body ∈ finditer ANKI_BLOCK_RE content
      ∧ process_block (H := deck_world) sample_model_definition
          (parent ["notes"; "test.md"]) (str_relative rel) default_deck
          (source_file_field sample_model_definition) body
        = Extracted deck_card card_media
      ∧ yaml_safe_load (World := deck_world) body = Loaded (YMap raw)
      ∧ c_deck deck_card = match raw_get raw "deck" with
                           | Some deck => deck
                           | None => YStr default_deck
                           end.
Proof.
  assert (Hin : deck_card ∈ [deck_card]) by left.
  split_and!; [exact deck_file_cards|reflexivity|exact Hin|reflexivity
              |reflexivity|reflexivity|].
  exact (identity_basis_of_extracted_card (H := deck_world) _ _ _ _ _ _ _
           deck_file_cards eq_refl Hin).
Defined.

(** C1 as the specification words it does not hold: when the schema's map
    has no "q" and no "a" key, the two parts read "None", not the empty
    string. *)
Lemma identity_basis_of_unmapped_keys :
  (c_guid_basis <$>
     (default ([], ∅)
        (find_anki_cards_in_file (H := sample_world) ["notes"; "x.md"]
           ["notes"] front_back_schema)).1)
  = ["None|None|notes|x.md"]
  ∧ ¬ Spec.identity_basis_as_specified (H := sample_world)
        ["notes"; "x.md"] ["notes"] front_back_schema.
Proof.
  split; [by vm_compute|]. intros Hall.
  destruct (find_anki_cards_in_file (H := sample_world) ["notes"; "x.md"]
              ["notes"] front_back_schema) as [[cards media]|] eqn:Hfind;
    [|by vm_compute in Hfind].
  destruct cards as [|c cards]; [by vm_compute in Hfind|].
  specialize (Hall (c :: cards) media _ ["x.md"] c Hfind eq_refl eq_refl).
  assert (Hc : c ∈ c :: cards) by left. specialize (Hall Hc).
  vm_compute in Hfind. injection Hfind as <- _ _. by vm_compute in Hall.
Qed.

Lemma unusable_block_is_skipped_witness :
  relative_to ["notes"; "test.md"] ["notes"] = Some ["test.md"]
  ∧ read_text (World := sample_world) ["notes"; "test.md"]
    = Some sample_document
  ∧ finditer ANKI_BLOCK_RE sample_document
    = [python_block] ++ incomplete_block :: [python_block]
  ∧ Spec.unusable_block (H := sample_world) sample_model_definition
      incomplete_block
  ∧ find_anki_cards_in_file (H := sample_world) ["notes"; "test.md"]
      ["notes"] sample_model_definition
    = Some (process_blocks (H := sample_world) sample_model_definition
              ["notes"] "test.md" "notes" (Some "SourceFile")
              [python_block; python_block] [] ∅).
Proof.
  assert (Hbad : Spec.unusable_block (H := sample_world)
                   sample_model_definition incomplete_block).
  { right. right. right.
    exists [(YStr "q", YStr "Question without answer");
            (YStr "tags", YSeq [YStr "incomplete"])],
      [("q", "Question"); ("a", "Answer")], "a", "Answer".
    split_and!; [reflexivity|reflexivity| |done|by left].
    right. left. }
  split_and!; [reflexivity|reflexivity|exact sample_file_blocks|exact Hbad|].
  destruct (unusable_block_is_skipped (H := sample_world)
              ["notes"; "test.md"] ["notes"] sample_model_definition
              ["test.md"] sample_document [python_block] [python_block]
              incomplete_block eq_refl eq_refl sample_file_blocks Hbad)
    as (default_deck & Hdeck & _ & Hfind).
  injection Hdeck as <-. exact Hfind.
Defined.

Lemma no_cards_no_package_witness :
  load_and_validate_model (H := cardless_world) (model_definition sample_args)
  = Some sample_model_definition
  ∧ is_dir (World := cardless_world) (notes_directory sample_args) = true
  ∧ scan_files (H := cardless_world) (notes_directory sample_args)
      sample_model_definition
      (rglob_md (World := cardless_world) (notes_directory sample_args)) [] ∅
    = ([], ∅)
  ∧ _main (H := cardless_world) sample_args
    = Returned
        [Log Warning "No valid Anki card definitions found in scanned files.";
         Stdout "No valid Anki card definitions found."].
Proof.
  assert (Hload : load_and_validate_model (H := cardless_world)
                    (model_definition sample_args)
                  = Some sample_model_definition) by (by vm_compute).
  assert (Hscan : scan_files (H := cardless_world)
                    (notes_directory sample_args) sample_model_definition
                    (rglob_md (World := cardless_world)
                       (notes_directory sample_args)) [] ∅
                  = ([], ∅)) by (by vm_compute).
  split_and!; [exact Hload|reflexivity|exact Hscan|].
  exact (proj2 (proj2 (no_cards_no_package (H := cardless_world)))
           sample_args sample_model_definition ∅ Hload eq_refl Hscan).
Defined.

Lemma notes_follow_schema_order_witness :
  generate_anki_package (H := sample_world) [python_card] ∅
    (create_genanki_model sample_model_definition) "output.apkg"
  = Some python_events
  ∧ WritePackage python_decks ∅ "output.apkg" ∈ python_events
  ∧ python_card ∈ [python_card]
  ∧ note_accepted (World := sample_world)
      (make_note (H := sample_world)
         (create_genanki_model sample_model_definition) python_card) = true
  ∧ ∃ d note,
      d ∈ python_decks ∧ note ∈ deck_notes d
      ∧ note_guid note
        = guid_for (World := sample_world) (c_guid_basis python_card)
      ∧ note_tags note = c_tags python_card
      ∧ length (note_fields note) = length (fields sample_model_definition)
      ∧ ∀ (i : nat) (fld : AnkiField),
          fields sample_model_definition !! i = Some fld →
          note_fields note !! i
          = Some (default "" (c_fields python_card !! f_name fld)).
Proof.
  assert (Hw : WritePackage python_decks ∅ "output.apkg" ∈ python_events).
  { unfold python_events. do 3 right. left. }
  assert (Hc : python_card ∈ [python_card]) by left.
  split_and!; [exact python_package|exact Hw|exact Hc|reflexivity|].
  exact (notes_follow_schema_order (H := sample_world) _ _ _ _ _ _ _ _ _
           python_package Hw Hc eq_refl).
Defined.

Lemma tagged_block_card :
  process_block (H := sample_world) tagged_schema ["notes"] "test.md"
    "notes" (source_file_field tagged_schema) python_block
  = Extracted tagged_card ∅.
Proof. by vm_compute. Qed.

Lemma tags_stay_out_of_fields_witness :
  process_block (H := sample_world) tagged_schema ["notes"] "test.md"
    "notes" (source_file_field tagged_schema) python_block
  = Extracted tagged_card ∅
  ∧ yaml_field_map tagged_schema
    = Some [("q", "Question"); ("a", "Answer"); ("tags", "Tags")]
  ∧ (∃ raw, yaml_safe_load (World := sample_world) python_block
            = Loaded (YMap raw)
        ∧ raw_get raw "tags" = Some (YSeq [YStr "python"]))
  ∧ c_tags tagged_card = YSeq [YStr "python"]
  ∧ c_fields tagged_card !! "Tags" = None
  ∧ ∀ f content, c_fields tagged_card !! f = Some content →
      ∃ k, (k, f) ∈ [("q", "Question"); ("a", "Answer"); ("tags", "Tags")]
           ∧ k ≠ "tags".
Proof.
  split; [exact tagged_block_card|]. split; [reflexivity|].
  split; [eexists; split; reflexivity|].
  destruct (tags_stay_out_of_fields (H := sample_world) _ _ _ _ _ _ _ _
              tagged_block_card)
    as (raw & fm & Hload & Hfm & Htags & Hprov & Hnone & _).
  injection Hfm as <-. split; [reflexivity|]. split.
  - apply Hnone; [reflexivity|done|].
    intros k Hk. repeat (apply elem_of_cons in Hk as [Hk|Hk]);
      [by injection Hk|by injection Hk|by injection Hk|].
    by apply elem_of_nil in Hk.
  - intros f content Hf.
    destruct (Hprov f content Hf) as [[? _]|(k & _ & _ & ? & ? & _)];
      [done|by exists k].
Defined.

Lemma card_fields_are_declared_witness :
  model_validate sample_model_definition = Ok sample_model_definition
  ∧ find_anki_cards_in_file (H := sample_world) ["notes"; "test.md"]
      ["notes"] sample_model_definition
    = Some ([python_card; python_card], ∅)
  ∧ python_card ∈ [python_card; python_card]
  ∧ dom (c_fields python_card) ⊆ field_names sample_model_definition.
Proof.
  assert (Hin : python_card ∈ [python_card; python_card]) by left.
  split_and!;
    [exact sample_model_definition_valid|exact sample_file_cards|exact Hin|].
  exact (proj1 (card_fields_are_declared (H := sample_world) _ _ _ _ _ _ _
                  sample_model_definition_valid sample_file_cards Hin)).
Defined.

(** *** Strings and matchers *)

Lemma sapp_cons (x : ascii) (a b : string) :
  String x a +:+ b = String x (a +:+ b).
Proof. reflexivity. Qed.

Lemma sapp_nil_l (b : string) : "" +:+ b = b.
Proof. reflexivity. Qed.

(** Push the characters of a known prefix out of an append. *)
Ltac sapp := rewrite ?sapp_cons, ?sapp_nil_l in *.

Lemma sapp_assoc (a b c : string) : (a +:+ b) +:+ c = a +:+ b +:+ c.
Proof. induction a as [|x a IH]; sapp; [done|by rewrite IH]. Qed.

Lemma sapp_nil_r (a : string) : a +:+ "" = a.
Proof. induction a as [|x a IH]; sapp; [done|by rewrite IH]. Qed.

Lemma slength_app (a b : string) :
  String.length (a +:+ b) = String.length a + String.length b.
Proof. induction a as [|x a IH]; sapp; simpl; [done|by rewrite IH]. Qed.

Lemma drop_app_length (a b : string) : drop (String.length a) (a +:+ b) = b.
Proof. induction a as [|x a IH]; sapp; simpl; [by destruct b|done]. Qed.

Lemma take_app_length (a b : string) : take (String.length a) (a +:+ b) = a.
Proof.
  induction a as [|x a IH]; sapp; simpl; [by destruct b|by rewrite IH].
Qed.

Lemma consumed_app (a b : string) : consumed (a +:+ b) b = a.
Proof.
  unfold consumed. rewrite slength_app.
  replace (String.length a + String.length b - String.length b)
    with (String.length a) by lia.
  apply take_app_length.
Qed.



Lemma startswith_app (p rest : string) : startswith p (p +:+ rest) = true.
Proof.
  induction p as [|x p IH]; sapp; simpl; [done|].
  by rewrite Ascii.eqb_refl, IH.
Qed.

Section MatcherLemmas.
Context {R : Type}.
Implicit Types (s u w : string) (k : string → option R).

(** A literal under IGNORECASE succeeds exactly when the text starts with
    it, letter case apart. *)
Lemma lit_ci_starts (p s : string) k :
  lit_ci p s k = if starts_ci p s then k (drop (String.length p) s) else None.
Proof.
  revert s. induction p as [|a p IH]; intros s; simpl; [by destruct s|].
  destruct s as [|b s]; [done|]. destruct (eqb_ci a b); simpl; [apply IH|done].
Qed.




(** A greedy repetition fails when the rest of the pattern matches at
    none of the positions it can stop at. *)
Lemma star_greedy_nowhere (f : ascii → bool) (u w : string) k :
  (∀ u1 u2, u = u1 +:+ u2 → k (u2 +:+ w) = None) →
  match w with
  | EmptyString => True
  | String c _ => f c = false
  end →
  star_greedy f (u +:+ w) k = None.
Proof.
  intros Hk Hw. induction u as [|c u IH]; sapp; simpl.
  - specialize (Hk "" "" eq_refl). sapp.
    destruct w as [|c w]; simpl; [done|]. by rewrite Hw.
  - rewrite IH.
    + specialize (Hk "" (String c u) eq_refl). sapp.
      rewrite Hk. by destruct (f c).
    + intros u1 u2 ->. by apply (Hk (String c u1) u2).
Qed.

End MatcherLemmas.

(** *** Where the text [src=Q] can start *)

Lemma starts_ci_cons (a c : ascii) (p s : string) :
  starts_ci (String a p) (String c s) = eqb_ci a c && starts_ci p s.
Proof. reflexivity. Qed.



(** A character that matches none of the pattern's ends every attempt to
    match the pattern across it. *)
Lemma starts_ci_past (p u : string) (q : ascii) (rest : string) :
  all_chars (λ a, negb (eqb_ci a q)) p = true →
  starts_ci p (u +:+ String q rest) = starts_ci p u.
Proof.
  revert u. induction p as [|a p IH]; intros u Hp; [by destruct u|].
  simpl in Hp. apply andb_true_iff in Hp as [Ha Hp].
  destruct u as [|c u]; sapp.
  - rewrite starts_ci_cons. by destruct (eqb_ci a q).
  - rewrite !starts_ci_cons. by rewrite IH.
Qed.








Lemma lit_ci_mismatch {R : Type} (a c : ascii) (p s : string)
    (k : string → option R) :
  eqb_ci a c = false → lit_ci (String a p) (String c s) k = None.
Proof. intros Hac. simpl. by rewrite Hac. Qed.



Lemma not_lt_ci (c : ascii) : is_not "<" c = true → eqb_ci "<" c = false.
Proof. destruct c as [[] [] [] [] [] [] [] []]; by vm_compute. Qed.


Section GreedyScan.
Context {R : Type}.
Implicit Types (k : string → option R).


End GreedyScan.

(** *** The image pattern on a written-out tag *)

Lemma remote_scheme_starts (s : string) :
  remote_scheme s
  = starts_ci "https://" s || starts_ci "http://" s || starts_ci "data:" s.
Proof.
  unfold remote_scheme, looking_at, opt_greedy.
  rewrite !lit_ci_starts.
  destruct s as [|c1 [|c2 [|c3 [|c4 [|c5 [|c6 [|c7 [|c8 s]]]]]]]];
    rewrite ?starts_ci_cons; simpl;
    repeat match goal with
           | |- context [eqb_ci ?a ?b] => destruct (eqb_ci a b); simpl
           end; done.
Qed.

Lemma remote_scheme_past (src rest : string) :
  remote_scheme (src +:+ dquote +:+ rest) = remote_scheme src.
Proof.
  unfold dquote. sapp. rewrite !remote_scheme_starts.
  by rewrite !starts_ci_past by reflexivity.
Qed.












(** No match starts at a character other than [<]. *)
Lemma IMG_SRC_RE_not_lt (c : ascii) (t : string) :
  is_not "<" c = true → IMG_SRC_RE (String c t) = None.
Proof.
  intros Hc. unfold IMG_SRC_RE. apply lit_ci_mismatch. by apply not_lt_ci.
Qed.

Section Substitution.
Context (repl : string → string → option (string * list string)).

(** Text without [<] is copied. *)
Lemma sub_from_copy (u w : string) :
  all_chars (is_not "<") u = true →
  sub_from repl (u +:+ w) 0
  = '(out, found) ← sub_from repl w 0; Some (u +:+ out, found).
Proof.
  intros Hu. induction u as [|c u IH]; sapp.
  - by destruct (sub_from repl w 0) as [[? ?]|].
  - simpl in Hu. apply andb_true_iff in Hu as [Hc Hu].
    simpl. rewrite (IMG_SRC_RE_not_lt c _ Hc), (IH Hu).
    by destruct (sub_from repl w 0) as [[? ?]|].
Qed.



End Substitution.

(** *** Rewriting the src attribute *)







Section ImageResolution.
Context `{World}.


End ImageResolution.


(** C5.  Image resolution misses two kinds of tag.  The pattern takes the
    last [src=Q] of a tag that leads to a match, whatever attribute it
    closes: a tag with a remote src and a local data-src is rewritten at
    its data-src and gives a media path, where the specification leaves it
    unchanged.  And the pattern ignores letter case where the rewriting
    does not: a local src attribute spelled in capitals is resolved and
    recorded as media, and its value is left as it was, where the
    specification rewrites it to the base name. *)
Theorem image_resolution_misses_cases :
  process_field_for_images (H := sample_world) lazy_tag ["notes"]
  = Some (Spec.img_tag " " "" "http://example.com/a.png"
            (" data-src=" +:+ dquote +:+ "pic.png" +:+ dquote),
          {["/notes/img/pic.png"]})
  ∧ process_field_for_images (H := sample_world) capital_src_tag ["notes"]
    = Some (capital_src_tag, {["/notes/img/pic.png"]})
  ∧ ¬ Spec.image_resolution_as_specified (H := sample_world).
Proof.
  split_and!; [by vm_compute|by vm_compute|]. intros Hclaim.
  destruct (Hclaim ["notes"] " " "" "http://example.com/a.png"
              (" data-src=" +:+ dquote +:+ "img/pic.png" +:+ dquote))
    as (Hremote & _).
  { by repeat split. }
  specialize (Hremote eq_refl). by vm_compute in Hremote.
Qed.

(** *** The template pattern on a written-out reference *)

Lemma lit_app {R : Type} (p rest : string) (k : string → option R) :
  lit p (p +:+ rest) k = k rest.
Proof. unfold lit. by rewrite startswith_app, drop_app_length. Qed.

Lemma lit_mismatch {R : Type} (a c : ascii) (p s : string)
    (k : string → option R) :
  Ascii.eqb a c = false → lit (String a p) (String c s) k = None.
Proof. intros Hac. unfold lit. simpl. by rewrite Hac. Qed.

(** A lazy repetition stops at the first position where the rest of the
    pattern matches. *)
Lemma star_lazy_until {R : Type} (f : ascii → bool) (u v : string)
    (k : string → option R) (r : R) :
  all_chars f u = true →
  (∀ c s', f c = true → k (String c s') = None) →
  k v = Some r →
  star_lazy f (u +:+ v) k = Some r.
Proof.
  intros Hu Hk Hv. induction u as [|c u IH]; sapp.
  - destruct v; simpl; by rewrite Hv.
  - simpl in Hu. apply andb_true_iff in Hu as [Hc Hu].
    simpl. by rewrite (Hk c _ Hc), Hc, (IH Hu).
Qed.

Lemma not_brace_lit (c : ascii) : is_not "}" c = true → Ascii.eqb "}" c = false.
Proof.
  unfold is_not. rewrite Ascii.eqb_sym. by intros ->%negb_true_iff.
Qed.

(** X18. [{{name}}] refers to [name], and [{{#name}}], [{{/name}}],
    [{{^name}}] do too: the name is what stands between the optional
    modifier and the closing braces, a lone modifier being a name. *)
Lemma TEMPLATE_FIELD_RE_reference (name rest : string) (first : ascii) :
  all_chars (is_not "}") (String first name) = true →
  TEMPLATE_FIELD_RE ("{{" +:+ String first name +:+ "}}" +:+ rest)
  = Some (if is_modifier first
          then match name with
               | EmptyString => String first name
               | _ => name
               end
          else String first name, rest).
Proof.
  intros Hname. simpl in Hname. apply andb_true_iff in Hname as [Hfirst Hname].
  unfold TEMPLATE_FIELD_RE. rewrite lit_app. unfold opt_greedy, cls. sapp.
  assert (Hk : ∀ (g : string → option (string * string)) c s',
            is_not "}" c = true → lit "}}" (String c s') g = None).
  { intros g c s' Hc. apply lit_mismatch. by apply not_brace_lit. }
  assert (Hplain : plus_lazy (is_not "}")
                     (String first (name +:+ "}}" +:+ rest))
                     (λ s3, lit "}}" s3 (λ s4,
                        Some (consumed
                                (String first (name +:+ "}}" +:+ rest))
                                s3, s4)))
                   = Some (String first name, rest)).
  { unfold plus_lazy, cls. rewrite Hfirst.
    apply star_lazy_until; [done|by intros; apply Hk|].
    rewrite lit_app. do 2 f_equal.
    change (String first (name +:+ "}}" +:+ rest))
      with (String first name +:+ "}}" +:+ rest).
    apply consumed_app. }
  destruct (is_modifier first) eqn:Hm; [|exact Hplain].
  destruct name as [|c name]; sapp.
  - unfold plus_lazy at 1, cls at 1.
    replace (is_not "}" "}") with false by reflexivity. exact Hplain.
  - simpl in Hname. apply andb_true_iff in Hname as [Hc Hname].
    unfold plus_lazy at 1, cls at 1. rewrite Hc.
    erewrite star_lazy_until; [reflexivity|done|by intros; apply Hk|].
    change (String "}" (String "}" rest)) with ("}}" +:+ rest).
    rewrite lit_app. do 2 f_equal.
    change (String c (name +:+ "}}" +:+ rest))
      with (String c name +:+ "}}" +:+ rest).
    apply consumed_app.
Qed.

Example template_references_of_the_test_suite :
  finditer TEMPLATE_FIELD_RE "{{FrontSide}}<hr>{{Answer}}<br>{{Tags}}"
  = ["FrontSide"; "Answer"; "Tags"]
  ∧ finditer TEMPLATE_FIELD_RE "{{#Extra}}{{Extra}}{{/Extra}} {{^Extra}}none"
    = ["Extra"; "Extra"; "Extra"; "Extra"]
  ∧ finditer TEMPLATE_FIELD_RE "{single} {{}} {{a}b}} {{ spaced }}"
    = [" spaced "].
Proof. by vm_compute. Qed.


(** *** The patterns on the strings of the test suite *)

Example anki_blocks_of_the_test_suite :
  finditer ANKI_BLOCK_RE
    ("# Test" +:+ newline +:+ "        " +:+ newline +:+ "```anki" +:+ newline
     +:+ "q: Question" +:+ newline +:+ "a: Answer" +:+ newline +:+ "```"
     +:+ newline +:+ newline +:+ "More text.")
  = ["q: Question" +:+ newline +:+ "a: Answer"]
  ∧ finditer ANKI_BLOCK_RE
      ("```ANKI" +:+ newline +:+ "q: Question" +:+ newline +:+ "a: Answer"
       +:+ newline +:+ "```")
    = ["q: Question" +:+ newline +:+ "a: Answer"]
  ∧ finditer ANKI_BLOCK_RE ("```python" +:+ newline +:+ "x = 1" +:+ newline
                            +:+ "```")
    = [].
Proof. by vm_compute. Qed.

Example image_pattern_of_the_test_suite :
  IMG_SRC_RE ("<img src=" +:+ dquote +:+ "diagram.png" +:+ dquote
              +:+ " alt=" +:+ dquote +:+ "test" +:+ dquote +:+ ">")
  = Some ("<img src=" +:+ dquote +:+ "diagram.png" +:+ dquote
          +:+ " alt=" +:+ dquote +:+ "test" +:+ dquote +:+ ">",
          "diagram.png", "")
  ∧ IMG_SRC_RE ("<img src=" +:+ dquote +:+ "https://example.com/image.png"
                +:+ dquote +:+ " alt=" +:+ dquote +:+ "test" +:+ dquote
                +:+ ">")
    = None
  ∧ IMG_SRC_RE ("<img src=" +:+ dquote +:+ "data:image/png;base64,iVBORw0K..."
                +:+ dquote +:+ " alt=" +:+ dquote +:+ "test" +:+ dquote
                +:+ ">")
    = None.
Proof. by vm_compute. Qed.

Example deck_names_of_the_test_suite :
  calculate_deck_name ["tmp"; "notes"] ["tmp"; "notes"; "test.md"]
  = Some "notes"
  ∧ calculate_deck_name ["tmp"; "notes"]
      ["tmp"; "notes"; "programming"; "python"; "test.md"]
    = Some "notes::programming::python"
  ∧ calculate_deck_name ["tmp"; "notes"] ["tmp"; "other"; "test.md"] = None.
Proof. by vm_compute. Qed.

(** ** Further properties of the code *)

(** *** The validators *)

Lemma check_templates_same_fields (m m' : AnkiModelDefinition)
    (ts : list AnkiTemplate) :
  fields m' = fields m → check_templates m' ts = check_templates m ts.
Proof.
  intros Hfs.
  assert (Hmiss : ∀ fmt, missing_fields m' fmt = missing_fields m fmt).
  { intros fmt. unfold missing_fields, field_names. by rewrite Hfs. }
  induction ts as [|t ts IH]; simpl; [done|].
  by rewrite !Hmiss, IH.
Qed.

Lemma check_templates_ok (m : AnkiModelDefinition) (ts : list AnkiTemplate) :
  check_templates m ts = Ok tt →
  ∀ t, t ∈ ts → Spec.all_declared m (qfmt t) ∧ Spec.all_declared m (afmt t).
Proof.
  intros Hok.
  destruct (check_templates_cases m ts)
    as [[_ Hall]|(before & t & after & side & _ & _ & _ & He)]; [done|].
  by rewrite Hok in He.
Qed.

Lemma with_yaml_field_map_same (m : AnkiModelDefinition)
    (fm : list (string * string)) :
  yaml_field_map m = Some fm → with_yaml_field_map m fm = m.
Proof. destruct m; simpl. by intros ->. Qed.

(** What the second model validator returns: the schema with a map, the
    explicit one when there was one, whose fields are all declared. *)
Lemma set_default_yaml_field_map_shape (m m' : AnkiModelDefinition) :
  set_default_yaml_field_map m = Ok m' →
  ∃ fm, m' = with_yaml_field_map m fm
    ∧ (∀ fm0, yaml_field_map m = Some fm0 → fm = fm0)
    ∧ (list_to_set fm.*2 : gset string) ∖ field_names m = ∅.
Proof.
  unfold set_default_yaml_field_map.
  destruct (yaml_field_map m) as [fm0|] eqn:Hfm; simpl.
  - rewrite Hfm. simpl. case_decide as Hmiss; [|done]. intros [= <-].
    exists fm0. split_and!; [by rewrite with_yaml_field_map_same| |done].
    by intros ? [= <-].
  - destruct (fields m) as [|f0 [|f1 rest]] eqn:Hfs; try done. simpl.
    case_decide as Hmiss; [|done]. intros [= <-].
    eexists. split; [reflexivity|]. split; [by intros ? [=]|].
    exact Hmiss.
Qed.

Lemma check_template_fields_exist_error (m : AnkiModelDefinition)
    (e : validation_error) :
  check_template_fields_exist m = Err e →
  ∃ template side missing, e = UndefinedTemplateFields template side missing.
Proof.
  unfold check_template_fields_exist. destruct (fields m); [done|].
  destruct (check_templates_cases m (templates m))
    as [[-> _]|(before & t & after & side & _ & _ & _ & ->)]; simpl; [done|].
  intros [= <-]. by eexists _, _, _.
Qed.

Lemma set_default_yaml_field_map_error (m : AnkiModelDefinition)
    (e : validation_error) :
  set_default_yaml_field_map m = Err e →
  e = NoDefaultMapping ∨ ∃ missing, e = UnknownMappedFields missing.
Proof.
  unfold set_default_yaml_field_map.
  destruct (yaml_field_map m) as [fm0|]; simpl.
  - case_decide; [done|]. intros [= <-]. right. by eexists.
  - destruct (fields m) as [|f0 [|f1 rest]]; simpl;
      [intros [= <-]; by left|intros [= <-]; by left|].
    case_decide; [done|]. intros [= <-]. right. by eexists.
Qed.

(** X1. The field validators run first and their errors are reported
    together: validation ends with field errors exactly when the id is not
    positive or the field list or the template list is empty, and the
    report has the id error, the empty-fields error and the
    empty-templates error exactly when the id, the fields and the templates
    are at fault; the template and mapping checks are not consulted. *)
Theorem field_validators_report (m : AnkiModelDefinition) :
  ((model_id m ≤ 0)%Z ∨ fields m = [] ∨ templates m = []
   ↔ ∃ errors, model_validate m = Err (FieldErrors errors))
  ∧ ∀ errors, model_validate m = Err (FieldErrors errors) →
      (NonPositiveId ∈ errors ↔ (model_id m ≤ 0)%Z)
      ∧ (EmptyList "fields" ∈ errors ↔ fields m = [])
      ∧ (EmptyList "templates" ∈ errors ↔ templates m = []).
Proof.
  assert (Hmodel : ∀ errors,
            check_id_positive (model_id m) = []
            → check_not_empty "fields" (fields m) = []
            → check_not_empty "templates" (templates m) = []
            → model_validate m ≠ Err (FieldErrors errors)).
  { intros errors H1 H2 H3 He. unfold model_validate in He.
    rewrite H1, H2, H3 in He. simpl in He.
    destruct (check_template_fields_exist m) as [m1|e] eqn:Hc; simpl in He.
    - by apply set_default_yaml_field_map_error in He as [?|[? ?]].
    - injection He as Hee. subst e.
      by apply check_template_fields_exist_error in Hc as (? & ? & ? & ?). }
  unfold model_validate, check_id_positive, check_not_empty in *.
  destruct (Z.leb_spec (model_id m) 0) as [Hid|Hid];
    destruct (fields m) as [|f fs] eqn:Hfs;
    destruct (templates m) as [|t ts] eqn:Hts; simpl in *;
    try (split;
         [split; [intros _; by eexists|intros _; by auto]
         |intros errors [= <-]; split_and!; split; intros Hx;
          try done; try lia; try set_solver]).
  split.
  - split; [intros [?|[?|?]]; [lia|done|done]|].
    intros [errors He]. by destruct (Hmodel errors).
  - intros errors He. by destruct (Hmodel errors).
Qed.

Lemma field_validators_report_witness :
  model_validate negative_id_schema
  = Err (FieldErrors [NonPositiveId; EmptyList "fields"])
  ∧ (NonPositiveId ∈ [NonPositiveId; EmptyList "fields"]
     ↔ (model_id negative_id_schema ≤ 0)%Z)
  ∧ (EmptyList "fields" ∈ [NonPositiveId; EmptyList "fields"]
     ↔ fields negative_id_schema = [])
  ∧ (EmptyList "templates" ∈ [NonPositiveId; EmptyList "fields"]
     ↔ templates negative_id_schema = []).
Proof.
  split; [reflexivity|].
  exact (proj2 (field_validators_report negative_id_schema) _ eq_refl).
Defined.

(** What a successful validation went through. *)
Lemma model_validate_ok_steps (m m' : AnkiModelDefinition) :
  model_validate m = Ok m' →
  (0 < model_id m)%Z ∧ fields m ≠ [] ∧ templates m ≠ []
  ∧ check_templates m (templates m) = Ok tt
  ∧ set_default_yaml_field_map m = Ok m'.
Proof.
  unfold model_validate, check_id_positive, check_not_empty.
  destruct (Z.leb_spec (model_id m) 0) as [Hid|Hid]; [done|].
  destruct (fields m) as [|f fs] eqn:Hfs; [done|].
  destruct (templates m) as [|t ts] eqn:Hts; [done|].
  unfold check_template_fields_exist. rewrite Hfs, Hts.
  destruct (check_templates m (t :: ts)) as [[]|e] eqn:Hct;
    cbn [app bind]; [|done].
  intros Hs. by split_and!.
Qed.

(** X2. A schema that passes validation has a positive id, at least one
    field and one template, templates that refer to declared or built-in
    names only, and a key-to-field map whose fields are all declared; it
    is the given schema, with its map if it had one. *)
Theorem validated_schema_invariants (m m' : AnkiModelDefinition) :
  model_validate m = Ok m' →
  (0 < model_id m')%Z ∧ fields m' ≠ [] ∧ templates m' ≠ []
  ∧ (∀ t, t ∈ templates m' →
       Spec.all_declared m' (qfmt t) ∧ Spec.all_declared m' (afmt t))
  ∧ (∃ fm, yaml_field_map m' = Some fm
       ∧ m' = with_yaml_field_map m fm
       ∧ (∀ k f, (k, f) ∈ fm → f ∈ field_names m')
       ∧ (∀ fm0, yaml_field_map m = Some fm0 → fm = fm0 ∧ m' = m)).
Proof.
  intros Hv.
  destruct (model_validate_ok_steps _ _ Hv) as (Hid & Hfs & Hts & Hct & Hs).
  destruct (set_default_yaml_field_map_shape _ _ Hs) as (fm & -> & Hsame & Hm).
  split_and!; [done|done|done| |].
  - intros t Ht. by apply (check_templates_ok m (templates m)).
  - exists fm. split_and!; [done|done| |].
    + intros k f Hin. change (f ∈ field_names m).
      destruct (decide (f ∈ field_names m)) as [?|Hn]; [done|].
      assert (f ∈ (∅ : gset string)); [|set_solver]. rewrite <- Hm.
      apply elem_of_difference. split; [|done].
      apply elem_of_list_to_set, list_elem_of_fmap. by exists (k, f).
    + intros fm0 Hfm0. destruct (Hsame _ Hfm0).
      split; [done|]. by apply with_yaml_field_map_same.
Qed.

Lemma validated_schema_invariants_witness :
  model_validate sample_model_definition = Ok sample_model_definition
  ∧ (0 < model_id sample_model_definition)%Z
  ∧ fields sample_model_definition ≠ []
  ∧ templates sample_model_definition ≠ [].
Proof.
  assert (Hv : model_validate sample_model_definition
               = Ok sample_model_definition) by (by vm_compute).
  split; [exact Hv|].
  destruct (validated_schema_invariants _ _ Hv) as (H1 & H2 & H3 & _).
  exact (conj H1 (conj H2 H3)).
Defined.

(** X3. An explicit key-to-field map that names a field the schema does
    not declare is rejected by the mapping check, with an error that names
    exactly the undeclared fields of the map; and the schema does not
    validate. *)
Theorem undeclared_mapped_field_rejected (m : AnkiModelDefinition)
    (fm : list (string * string)) (k f : string) :
  yaml_field_map m = Some fm →
  (k, f) ∈ fm → f ∉ field_names m →
  set_default_yaml_field_map m
  = Err (UnknownMappedFields (list_to_set fm.*2 ∖ field_names m))
  ∧ f ∈ (list_to_set fm.*2 : gset string) ∖ field_names m
  ∧ (∀ g, g ∈ (list_to_set fm.*2 : gset string) ∖ field_names m ↔
          (∃ k', (k', g) ∈ fm) ∧ (g ∉ field_names m))
  ∧ ∃ e, model_validate m = Err e.
Proof.
  intros Hfm Hin Hf.
  assert (Hmiss : f ∈ (list_to_set fm.*2 : gset string) ∖ field_names m).
  { apply elem_of_difference. split; [|done].
    apply elem_of_list_to_set, list_elem_of_fmap. by exists (k, f). }
  assert (Hs : set_default_yaml_field_map m
               = Err (UnknownMappedFields
                        (list_to_set fm.*2 ∖ field_names m))).
  { unfold set_default_yaml_field_map. rewrite Hfm. simpl. rewrite Hfm. simpl.
    case_decide as Hd; [|done]. rewrite Hd in Hmiss. set_solver. }
  split_and!; [done|done| |].
  - intros g. rewrite elem_of_difference, elem_of_list_to_set, list_elem_of_fmap.
    split.
    + intros [([k' g'] & -> & ?) ?]. split; [by exists k'|done].
    + intros [[k' ?] ?]. split; [by exists (k', g)|done].
  - destruct (model_validate m) as [m'|e] eqn:Hv; [|by eexists].
    apply model_validate_ok_steps in Hv as (_ & _ & _ & _ & Hs').
    by rewrite Hs in Hs'.
Qed.

Lemma undeclared_mapped_field_rejected_witness :
  yaml_field_map invalid_mapping_schema
  = Some [("q", "Question"); ("a", "NonExistentField")]
  ∧ ("a", "NonExistentField") ∈ [("q", "Question"); ("a", "NonExistentField")]
  ∧ ("NonExistentField" ∉ field_names invalid_mapping_schema)
  ∧ ∃ e, model_validate invalid_mapping_schema = Err e.
Proof.
  assert (Hin : ("a", "NonExistentField")
                ∈ [("q", "Question"); ("a", "NonExistentField")]).
  { right. left. }
  assert (Hn : "NonExistentField" ∉ field_names invalid_mapping_schema).
  { by_computation. }
  split_and!; [reflexivity|exact Hin|exact Hn|].
  exact (proj2 (proj2 (proj2
           (undeclared_mapped_field_rejected invalid_mapping_schema _ _ _
              eq_refl Hin Hn)))).
Defined.

(** X4. Validation is idempotent: a schema that validation returned
    validates again, to itself. *)
Theorem model_validate_idempotent (m m' : AnkiModelDefinition) :
  model_validate m = Ok m' → model_validate m' = Ok m'.
Proof.
  intros Hv.
  destruct (model_validate_ok_steps _ _ Hv) as (Hid & Hfs & Hts & Hct & Hs).
  destruct (set_default_yaml_field_map_shape _ _ Hs) as (fm & -> & _ & Hm).
  unfold model_validate, check_id_positive, check_not_empty. simpl.
  destruct (Z.leb_spec (model_id m) 0) as [?|_]; [lia|].
  destruct (fields m) as [|f fs] eqn:Hfs'; [done|].
  destruct (templates m) as [|t ts] eqn:Hts'; [done|]. simpl.
  unfold check_template_fields_exist. simpl. rewrite Hfs', Hts'.
  rewrite (check_templates_same_fields m) by done. rewrite Hct. simpl.
  unfold set_default_yaml_field_map. simpl.
  change (field_names (with_yaml_field_map m fm)) with (field_names m).
  by rewrite decide_True.
Qed.

Lemma model_validate_idempotent_witness :
  model_validate two_field_schema
  = Ok (with_yaml_field_map two_field_schema [("q", "Front"); ("a", "Back")])
  ∧ model_validate
      (with_yaml_field_map two_field_schema [("q", "Front"); ("a", "Back")])
    = Ok (with_yaml_field_map two_field_schema
            [("q", "Front"); ("a", "Back")]).
Proof.
  assert (Hv : model_validate two_field_schema
               = Ok (with_yaml_field_map two_field_schema
                       [("q", "Front"); ("a", "Back")])) by (by vm_compute).
  split; [exact Hv|]. exact (model_validate_idempotent _ _ Hv).
Defined.

(** *** Deck names *)

Lemma relative_to_app (root rel : path) : relative_to (root ++ rel) root = Some rel.
Proof.
  induction root as [|r root IH]; simpl; [by destruct rel|].
  by rewrite String.eqb_refl.
Qed.

Lemma relative_to_Some (p root rel : path) :
  relative_to p root = Some rel → p = root ++ rel.
Proof.
  revert p. induction root as [|r root IH]; intros p.
  - destruct p; simpl; by intros [= <-].
  - destruct p as [|c p]; simpl; [done|].
    destruct (String.eqb_spec c r) as [->|?]; [|done].
    intros Hrel. by rewrite (IH _ Hrel).
Qed.

(** X5. The default deck name depends on the directory only: every file
    of a directory below the scan root gets the root's name followed by
    the directories down to it, whatever the file is called; and the
    computation raises exactly for a path that is not inside the root. *)
Theorem calculate_deck_name_by_directory (root_dir filepath : path) :
  (∀ dir file, filepath = root_dir ++ dir ++ [file] →
     calculate_deck_name root_dir filepath
     = Some (join "::" (name root_dir :: dir)))
  ∧ (calculate_deck_name root_dir filepath = None
     ↔ ¬ ∃ rel, filepath = root_dir ++ rel).
Proof.
  unfold calculate_deck_name. split.
  - intros dir file ->. rewrite relative_to_app. simpl.
    by rewrite removelast_last.
  - destruct (relative_to filepath root_dir) as [rel|] eqn:Hrel; simpl.
    + split; [done|]. intros Hn. destruct Hn. exists rel.
      by apply relative_to_Some.
    + split; [|done]. intros _ [rel ->]. by rewrite relative_to_app in Hrel.
Qed.

Lemma calculate_deck_name_by_directory_witness :
  calculate_deck_name ["tmp"; "notes"]
    (["tmp"; "notes"] ++ ["programming"; "python"] ++ ["basics.md"])
  = Some "notes::programming::python"
  ∧ calculate_deck_name ["tmp"; "notes"]
      (["tmp"; "notes"] ++ ["programming"; "python"] ++ ["test.md"])
    = Some "notes::programming::python".
Proof.
  split.
  - exact (proj1 (calculate_deck_name_by_directory ["tmp"; "notes"] _)
             ["programming"; "python"] "basics.md" eq_refl).
  - exact (proj1 (calculate_deck_name_by_directory ["tmp"; "notes"] _)
             ["programming"; "python"] "test.md" eq_refl).
Defined.

(** *** What a match of a pattern looks like *)

Lemma take_drop (n : nat) (s : string) : take n s +:+ drop n s = s.
Proof.
  revert n. induction s as [|c s IH]; intros [|n]; simpl; try done.
  sapp. by rewrite IH.
Qed.

Lemma eqb_ci_lower (a b : ascii) :
  eqb_ci a b = true → lower_char a = lower_char b.
Proof. unfold eqb_ci. by intros ?%Ascii.eqb_eq. Qed.

Lemma starts_ci_take (p s : string) :
  starts_ci p s = true → lower (take (String.length p) s) = lower p.
Proof.
  revert s. induction p as [|a p IH]; intros [|c s]; simpl; try done.
  intros [Hac Hp]%andb_true_iff.
  by rewrite (IH _ Hp), (eqb_ci_lower _ _ Hac).
Qed.

Section MatcherInversion.
Context {R : Type}.
Implicit Types (k : string → option R) (r : R).

(** What a successful literal has passed over reads like the literal,
    letter case apart. *)
Lemma lit_ci_inv (p s : string) k r :
  lit_ci p s k = Some r →
  ∃ x s', s = x +:+ s' ∧ lower x = lower p ∧ k s' = Some r.
Proof.
  rewrite lit_ci_starts. destruct (starts_ci p s) eqn:Hp; [|done].
  intros Hk. exists (take (String.length p) s), (drop (String.length p) s).
  split_and!; [by rewrite take_drop|by apply starts_ci_take|done].
Qed.

Lemma star_greedy_inv (f : ascii → bool) (s : string) k r :
  star_greedy f s k = Some r →
  ∃ u v, s = u +:+ v ∧ all_chars f u = true ∧ k v = Some r.
Proof.
  induction s as [|c s IH]; simpl.
  - intros Hk. by exists "", "".
  - destruct (f c) eqn:Hc; [|intros Hk; by exists "", (String c s)].
    destruct (star_greedy f s k) as [r'|] eqn:Hs.
    + intros [= <-]. destruct (IH eq_refl) as (u & v & -> & Hu & Hv).
      exists (String c u), v. split_and!; [done| |done].
      simpl. by rewrite Hc.
    + intros Hk. by exists "", (String c s).
Qed.

Lemma plus_greedy_inv (f : ascii → bool) (s : string) k r :
  plus_greedy f s k = Some r →
  ∃ u v, s = u +:+ v ∧ u ≠ "" ∧ all_chars f u = true ∧ k v = Some r.
Proof.
  unfold plus_greedy, cls. destruct s as [|c s]; [done|].
  destruct (f c) eqn:Hc; [|done].
  intros (u & v & -> & Hu & Hv)%star_greedy_inv.
  exists (String c u), v. split_and!; [done|done| |done].
  simpl. by rewrite Hc.
Qed.

(** A lazy repetition stops at the first position where the rest of the
    pattern matches. *)
Lemma star_lazy_inv (f : ascii → bool) (s : string) k r :
  star_lazy f s k = Some r →
  ∃ u v, s = u +:+ v ∧ all_chars f u = true ∧ k v = Some r
    ∧ ∀ u1 u2, u = u1 +:+ u2 → u2 ≠ "" → k (u2 +:+ v) = None.
Proof.
  induction s as [|c s IH]; simpl.
  - destruct (k "") as [r'|] eqn:Hk; [|done]. intros [= <-].
    exists "", "". split_and!; [done|done|done|].
    intros [|] [|]; by simpl.
  - destruct (k (String c s)) as [r'|] eqn:Hk.
    + intros [= <-]. exists "", (String c s). split_and!; [done|done|done|].
      intros [|] [|]; by simpl.
    + destruct (f c) eqn:Hc; [|done].
      intros (u & v & -> & Hu & Hv & Hfirst)%IH.
      exists (String c u), v. split_and!; [done| |done|].
      * simpl. by rewrite Hc.
      * intros [|c1 u1] u2; sapp.
        -- intros <- _. by sapp.
        -- intros [= <- ->] Hne. by apply (Hfirst u1 u2).
Qed.

End MatcherInversion.

Lemma lower_is_quote (x : string) : lower x = lower dquote → x = dquote.
Proof.
  destruct x as [|c [|c' x]]; simpl; try done.
  intros [= Hc]. f_equal. revert Hc.
  destruct c as [[] [] [] [] [] [] [] []]; by vm_compute.
Qed.

Lemma lower_is_gt (x : string) : lower x = lower ">" → x = ">".
Proof.
  destruct x as [|c [|c' x]]; simpl; try done.
  intros [= Hc]. f_equal. revert Hc.
  destruct c as [[] [] [] [] [] [] [] []]; by vm_compute.
Qed.

(** Every match of the image pattern has the shape of the pattern, and
    what it passes over is the start of the text. *)
Lemma IMG_SRC_RE_inv (s tag src rest : string) :
  IMG_SRC_RE s = Some (tag, src, rest) →
  s = tag +:+ rest ∧ src ≠ ""
  ∧ all_chars (is_not "034") src = true
  ∧ remote_scheme src = false
  ∧ ∃ opening ws attrs attr after,
      tag = opening +:+ ws +:+ attrs +:+ attr +:+ src +:+ dquote +:+ after
            +:+ ">"
      ∧ lower opening = "<img"
      ∧ ws ≠ "" ∧ all_chars is_space ws = true
      ∧ all_chars (is_not ">") attrs = true
      ∧ lower attr = "src=" +:+ dquote
      ∧ all_chars (is_not ">") after = true.
Proof.
  unfold IMG_SRC_RE.
  intros (opening & s1 & Hs & Hopen & H1)%lit_ci_inv.
  apply plus_greedy_inv in H1 as (ws & s2 & -> & Hws & Hspaces & H2).
  unfold img_attrs in H2.
  apply star_greedy_inv in H2 as (attrs & s3 & -> & Hattrs & H3).
  apply lit_ci_inv in H3 as (attr & s4 & -> & Hattr & H4).
  unfold img_after_src in H4.
  destruct (remote_scheme s4) eqn:Hremote; [done|].
  apply plus_greedy_inv in H4 as (src' & s5 & -> & Hsrc & Hsrcchars & H5).
  apply lit_ci_inv in H5 as (q & s6 & -> & ->%lower_is_quote & H6).
  apply star_greedy_inv in H6 as (after & s7 & -> & Hafter & H7).
  apply lit_ci_inv in H7 as (g & s8 & -> & ->%lower_is_gt & H8).
  injection H8 as <- <- <-.
  rewrite remote_scheme_past in Hremote.
  rewrite consumed_app.
  assert (Hs' : s = (opening +:+ ws +:+ attrs +:+ attr +:+ src' +:+ dquote
                     +:+ after +:+ ">") +:+ s8).
  { rewrite Hs. by rewrite !sapp_assoc. }
  assert (Htag : consumed s s8 = opening +:+ ws +:+ attrs +:+ attr +:+ src'
                                 +:+ dquote +:+ after +:+ ">").
  { rewrite Hs'. apply consumed_app. }
  rewrite Htag. clear Htag.
  split_and!; [done|done|done|done|].
  exists opening, ws, attrs, attr, after. by split_and!.
Qed.











(** *** Image resolution over a whole field *)

Section SubstitutionAll.
Context (repl : string → string → option (string * list string)).

Lemma IMG_SRC_RE_tag_nonempty (s tag src rest : string) :
  IMG_SRC_RE s = Some (tag, src, rest) →
  s = tag +:+ rest ∧ String.length rest < String.length s.
Proof.
  intros (Hs & _ & _ & _ & opening & ws & attrs & attr & after & -> & Ho & _)
    %IMG_SRC_RE_inv.
  split; [done|]. rewrite Hs, !slength_app.
  destruct opening; [done|]. simpl. lia.
Qed.


(** A callback that gives every tag back leaves the text as it is. *)
Lemma sub_from_unchanged (s : string) :
  (∀ tag src, repl tag src = Some (tag, [])) →
  ∀ skip, sub_from repl s skip = Some (drop skip s, []).
Proof.
  intros Hrepl. induction s as [|c s IH]; intros [|n]; simpl; try done.
  destruct (IMG_SRC_RE (String c s)) as [[[tag src] rest]|] eqn:Hm.
  - rewrite Hrepl. simpl. rewrite IH. simpl.
    apply IMG_SRC_RE_tag_nonempty in Hm as [Hs Hlen].
    destruct tag as [|c' tag];
      [rewrite sapp_nil_l in Hs; rewrite <- Hs in Hlen; lia|].
    revert Hs. sapp. intros [= <- ->].
    rewrite slength_app.
    replace (S (String.length tag + String.length rest)
             - String.length rest - 1)
      with (String.length tag) by lia.
    by rewrite drop_app_length.
  - by rewrite IH.
Qed.

(** Whatever the substitution collects was returned by the callback for a
    match of the pattern in the text. *)
Lemma sub_from_found (s : string) :
  ∀ skip out found, sub_from repl s skip = Some (out, found) →
  ∀ p, p ∈ found →
  ∃ pre tag src rest new l,
    s = pre +:+ tag +:+ rest
    ∧ IMG_SRC_RE (tag +:+ rest) = Some (tag, src, rest)
    ∧ repl tag src = Some (new, l) ∧ p ∈ l.
Proof.
  induction s as [|c s IH]; intros [|n] out found; simpl.
  - by intros [= <- <-] p ?%elem_of_nil.
  - by intros [= <- <-] p ?%elem_of_nil.
  - destruct (IMG_SRC_RE (String c s)) as [[[tag src] rest]|] eqn:Hm.
    + destruct (repl tag src) as [[new l]|] eqn:Hr; simpl; [|done].
      destruct (sub_from repl s _) as [[out' found']|] eqn:Hsub; simpl;
        [|done].
      intros [= <- <-] p [Hp|Hp]%elem_of_app.
      * pose proof (IMG_SRC_RE_tag_nonempty _ _ _ _ Hm) as [Hs _].
        exists "", tag, src, rest, new, l. rewrite <- Hs. by split_and!.
      * destruct (IH _ _ _ Hsub p Hp)
          as (pre & tag' & src' & rest' & new' & l' & -> & ? & ? & ?).
        by exists (String c pre), tag', src', rest', new', l'.
    + destruct (sub_from repl s 0) as [[out' found']|] eqn:Hsub; simpl;
        [|done].
      intros [= <- <-] p Hp.
      destruct (IH _ _ _ Hsub p Hp)
        as (pre & tag' & src' & rest' & new' & l' & -> & ? & ? & ?).
      by exists (String c pre), tag', src', rest', new', l'.
  - intros Hsub p Hp.
    destruct (IH _ _ _ Hsub p Hp)
      as (pre & tag' & src' & rest' & new' & l' & -> & ? & ? & ?).
    by exists (String c pre), tag', src', rest', new', l'.
Qed.

End SubstitutionAll.

Section ImageResolutionAll.
Context `{World}.

Lemma replace_src_found (md_dir : path) (tag src new : string)
    (l : list string) (p : string) :
  replace_src md_dir tag src = Some (new, l) → p ∈ l →
  lookup_image md_dir src = IsFile p.
Proof.
  unfold replace_src. destruct (lookup_image md_dir src) as [|a|a]; [done| |].
  - by intros [= <- <-] ?%elem_of_nil.
  - by intros [= <- <-] ->%list_elem_of_singleton.
Qed.

(** Where a media path of a field comes from. *)
Lemma process_field_for_images_media (field_content : string)
    (md_file_dir : path) (out : string) (media : gset string) (p : string) :
  process_field_for_images field_content md_file_dir = Some (out, media) →
  p ∈ media →
  ∃ pre attr src post,
    field_content = pre +:+ attr +:+ src +:+ dquote +:+ post
    ∧ lower attr = "src=" +:+ dquote
    ∧ src ≠ "" ∧ remote_scheme src = false
    ∧ lookup_image md_file_dir src = IsFile p.
Proof.
  unfold process_field_for_images.
  destruct (sub_from (replace_src md_file_dir) field_content 0)
    as [[out' found]|] eqn:Hsub; simpl; [|done].
  intros [= <- <-] Hp%elem_of_list_to_set.
  destruct (sub_from_found _ _ _ _ _ Hsub p Hp)
    as (pre & tag & src & rest & new & l & -> & Hm & Hr & Hl).
  apply IMG_SRC_RE_inv in Hm
    as (_ & Hne & _ & Hremote & opening & ws & attrs & attr & after
        & -> & _ & _ & _ & _ & Hattr & _).
  exists (pre +:+ opening +:+ ws +:+ attrs), attr, src,
    (after +:+ ">" +:+ rest).
  split_and!; [by rewrite !sapp_assoc|done|done|done|].
  by eapply replace_src_found.
Qed.

(** X7. A field without the character [<] comes back as it is, with no
    media, whatever the file system does; and so does any field when no
    src resolves to a file. *)
Theorem field_without_image_unchanged (field_content : string)
    (md_file_dir : path) :
  all_chars (is_not "<") field_content = true
  ∨ (∀ src, ∃ resolved, lookup_image md_file_dir src = NotAFile resolved) →
  process_field_for_images field_content md_file_dir
  = Some (field_content, ∅).
Proof.
  unfold process_field_for_images. intros [Hlt|Hnone].
  - rewrite <- (sapp_nil_r field_content) at 1.
    rewrite sub_from_copy by done. simpl. by rewrite sapp_nil_r.
  - rewrite sub_from_unchanged; [done|].
    intros tag src. unfold replace_src. by destruct (Hnone src) as [a ->].
Qed.


End ImageResolutionAll.

Lemma field_without_image_unchanged_witness :
  process_field_for_images (H := imageless_world) ("See " +:+ diagram_tag)
    ["notes"]
  = Some ("See " +:+ diagram_tag, ∅).
Proof.
  apply (field_without_image_unchanged (H := imageless_world)).
  right. intros src. by eexists.
Defined.


(** *** The blocks and the template references of a text *)

(** Every match that [finditer] lists is a match of the pattern at some
    position of the text. *)
Lemma finditer_from_elem {G : Type} (re_at : string → option (G * string))
    (s : string) :
  ∀ skip g, g ∈ finditer_from re_at s skip →
  ∃ pre s' rest, s = pre +:+ s' ∧ re_at s' = Some (g, rest).
Proof.
  induction s as [|c s IH]; intros [|n] g; simpl.
  - destruct (re_at "") as [[g' rest]|] eqn:Hm; [|by intros ?%elem_of_nil].
    intros ->%list_elem_of_singleton. by exists "", "", rest.
  - by intros ?%elem_of_nil.
  - destruct (re_at (String c s)) as [[g' rest]|] eqn:Hm.
    + intros [->|Hg]%elem_of_cons; [by exists "", (String c s), rest|].
      destruct (IH _ _ Hg) as (pre & s' & rest' & -> & ?).
      by exists (String c pre), s', rest'.
    + intros Hg. destruct (IH _ _ Hg) as (pre & s' & rest' & -> & ?).
      by exists (String c pre), s', rest'.
  - intros Hg. destruct (IH _ _ Hg) as (pre & s' & rest' & -> & ?).
    by exists (String c pre), s', rest'.
Qed.

Lemma startswith_take_drop (p s : string) :
  startswith p s = true → s = p +:+ drop (String.length p) s.
Proof.
  revert s. induction p as [|a p IH]; intros [|c s]; simpl; try done.
  intros [->%Ascii.eqb_eq Hp]%andb_true_iff. sapp. by rewrite <- IH.
Qed.

Lemma lit_inv {R : Type} (p s : string) (k : string → option R) (r : R) :
  lit p s k = Some r → ∃ s', s = p +:+ s' ∧ k s' = Some r.
Proof.
  unfold lit. destruct (startswith p s) eqn:Hp; [|done].
  intros Hk. exists (drop (String.length p) s).
  split; [by apply startswith_take_drop|done].
Qed.










Lemma is_modifier_inv (c : ascii) :
  is_modifier c = true → c = "#"%char ∨ c = "/"%char ∨ c = "^"%char.
Proof.
  unfold is_modifier.
  intros [[?%Ascii.eqb_eq|?%Ascii.eqb_eq]%orb_true_iff|?%Ascii.eqb_eq]
    %orb_true_iff; auto.
Qed.

Lemma TEMPLATE_FIELD_RE_inv (s name rest : string) :
  TEMPLATE_FIELD_RE s = Some (name, rest) →
  name ≠ "" ∧ all_chars (is_not "}") name = true
  ∧ ∃ modifier,
      s = "{{" +:+ modifier +:+ name +:+ "}}" +:+ rest
      ∧ (modifier = "" ∨ modifier = "#" ∨ modifier = "/" ∨ modifier = "^").
Proof.
  unfold TEMPLATE_FIELD_RE. intros (s1 & -> & H1)%lit_inv.
  assert (Hname : ∀ s2,
            plus_lazy (is_not "}") s2 (λ s3,
              lit "}}" s3 (λ s4, Some (consumed s2 s3, s4)))
            = Some (name, rest) →
            name ≠ "" ∧ all_chars (is_not "}") name = true
            ∧ s2 = name +:+ "}}" +:+ rest).
  { intros s2. unfold plus_lazy, cls. destruct s2 as [|c s2]; [done|].
    destruct (is_not "}" c) eqn:Hc; [|done].
    intros (u & v & -> & Hu & Hv & _)%star_lazy_inv.
    apply lit_inv in Hv as (s4 & -> & Hv).
    change (String c (u +:+ "}}" +:+ s4))
      with (String c u +:+ "}}" +:+ s4) in Hv.
    rewrite consumed_app in Hv. injection Hv as <- <-.
    split_and!; [done| |done]. simpl. by rewrite Hc. }
  unfold opt_greedy in H1.
  destruct (cls is_modifier s1 _) as [r|] eqn:Hmod.
  - injection H1 as Hr. subst r. unfold cls in Hmod.
    destruct s1 as [|b s2]; [done|].
    destruct (is_modifier b) eqn:Hb; [|done].
    apply Hname in Hmod as (? & ? & ->).
    split_and!; [done|done|]. exists (String b "").
    split; [done|]. right.
    destruct (is_modifier_inv _ Hb) as [-> | [-> | ->]]; auto.
  - apply Hname in H1 as (? & ? & ->).
    split_and!; [done|done|]. exists "". split; [done|by left].
Qed.

(** X10. Every name that a format string is taken to refer to is written
    in it between [{{], with at most one of the modifiers [#], [/], [^]
    behind it, and [}}]; the name is not empty and has no closing brace,
    and it is taken as written, blanks and filter prefixes included. *)
Theorem template_references_are_braced (fmt name : string) :
  name ∈ referenced_fields fmt →
  name ≠ "" ∧ all_chars (is_not "}") name = true
  ∧ ∃ pre modifier post,
      fmt = pre +:+ "{{" +:+ modifier +:+ name +:+ "}}" +:+ post
      ∧ (modifier = "" ∨ modifier = "#" ∨ modifier = "/" ∨ modifier = "^").
Proof.
  unfold referenced_fields, finditer.
  intros (pre & s' & rest & -> & Hm)%elem_of_list_to_set%finditer_from_elem.
  apply TEMPLATE_FIELD_RE_inv in Hm as (? & ? & modifier & -> & ?).
  split_and!; [done|done|]. by exists pre, modifier, rest.
Qed.

Lemma template_references_are_braced_witness :
  ("type:Back" ∈ referenced_fields "{{Front}}<hr>{{#Back}}{{type:Back}}")
  ∧ ∃ pre modifier post,
      "{{Front}}<hr>{{#Back}}{{type:Back}}"
      = pre +:+ "{{" +:+ modifier +:+ "type:Back" +:+ "}}" +:+ post
      ∧ (modifier = "" ∨ modifier = "#" ∨ modifier = "/" ∨ modifier = "^").
Proof.
  assert (Hin : "type:Back"
                ∈ referenced_fields "{{Front}}<hr>{{#Back}}{{type:Back}}").
  { by_computation. }
  split; [exact Hin|].
  exact (proj2 (proj2 (template_references_are_braced _ _ Hin))).
Defined.

(** *** The cards of a file *)

Section FileCards.
Context `{World}.

Lemma process_blocks_outcomes (model_def : AnkiModelDefinition)
    (md_dir : path) (rel default_deck : string) (sff : option string)
    (blocks : list string) :
  ∀ (cards : list card) (all_media : gset string),
  process_blocks model_def md_dir rel default_deck sff blocks cards all_media
  = (cards
     ++ omap outcome_card
          (process_block model_def md_dir rel default_deck sff <$> blocks),
     all_media
     ∪ ⋃ (outcome_media
          <$> (process_block model_def md_dir rel default_deck sff
               <$> blocks))).
Proof.
  induction blocks as [|b blocks IH]; intros cards all_media; simpl.
  - by rewrite app_nil_r, union_empty_r_L.
  - destruct (process_block model_def md_dir rel default_deck sff b)
      as [why|c card_media]; rewrite IH; simpl.
    + by rewrite union_empty_l_L.
    + by rewrite <- app_assoc, union_assoc_L.
Qed.

Lemma calculate_deck_name_inside (root_dir rel : path) :
  calculate_deck_name root_dir (root_dir ++ rel)
  = Some (join "::" (name root_dir :: removelast rel)).
Proof. unfold calculate_deck_name. by rewrite relative_to_app. Qed.

(** X11. The extraction from a file raises exactly when the file is not
    inside the scan root.  Inside it, an unreadable file gives no card and
    no media, and a readable one gives the cards of its usable blocks in
    the order of the document, each block processed on its own with the
    file's relative path and the deck name of its directory, and the
    media of those blocks. *)
Theorem file_cards_follow_blocks (filepath root_dir : path)
    (model_def : AnkiModelDefinition) :
  (find_anki_cards_in_file filepath root_dir model_def = None
   ↔ ¬ ∃ rel, filepath = root_dir ++ rel)
  ∧ ∀ rel, filepath = root_dir ++ rel →
      (read_text filepath = None →
       find_anki_cards_in_file filepath root_dir model_def = Some ([], ∅))
      ∧ ∀ content, read_text filepath = Some content →
          let outcomes :=
            process_block model_def (parent filepath) (str_relative rel)
              (join "::" (name root_dir :: removelast rel))
              (source_file_field model_def)
            <$> finditer ANKI_BLOCK_RE content in
          find_anki_cards_in_file filepath root_dir model_def
          = Some (omap outcome_card outcomes, ⋃ (outcome_media <$> outcomes)).
Proof.
  split.
  - unfold find_anki_cards_in_file, calculate_deck_name.
    destruct (relative_to filepath root_dir) as [rel|] eqn:Hrel; simpl.
    + split; [by destruct (read_text filepath)|].
      intros Hn. destruct Hn. exists rel. by apply relative_to_Some.
    + split; [|done]. intros _ [rel ->]. by rewrite relative_to_app in Hrel.
  - intros rel ->. unfold find_anki_cards_in_file.
    rewrite calculate_deck_name_inside, relative_to_app. simpl. split.
    + by intros ->.
    + intros content ->. rewrite process_blocks_outcomes. simpl.
      by rewrite union_empty_l_L.
Qed.

End FileCards.

Lemma file_cards_follow_blocks_witness :
  find_anki_cards_in_file (H := sample_world) (["notes"] ++ ["test.md"])
    ["notes"] sample_model_definition
  = Some (omap outcome_card
            (process_block (H := sample_world) sample_model_definition
               ["notes"] "test.md" "notes" (Some "SourceFile")
             <$> [python_block; incomplete_block; python_block]),
          ⋃ (outcome_media
             <$> (process_block (H := sample_world) sample_model_definition
                    ["notes"] "test.md" "notes" (Some "SourceFile")
                  <$> [python_block; incomplete_block; python_block]))).
Proof.
  exact (proj2 (proj2 (file_cards_follow_blocks (H := sample_world)
                         (["notes"] ++ ["test.md"]) ["notes"]
                         sample_model_definition) ["test.md"] eq_refl)
           sample_document eq_refl).
Defined.

(** *** The media of a run *)

Section RunMedia.
Context `{World}.

Lemma populate_fields_media (md_dir : path) (raw : list (yaml * yaml))
    (items : list (string * string)) :
  ∀ (cf : gmap string string) (cm : gset string) cf' cm',
  populate_fields md_dir raw items cf cm = LoopDone cf' cm' →
  ∀ p, p ∈ cm' →
  p ∈ cm ∨ ∃ text out media,
             process_field_for_images text md_dir = Some (out, media)
             ∧ p ∈ media.
Proof.
  induction items as [|[k f] items IH]; intros cf cm cf' cm'; simpl.
  - intros [= <- <-] p ?. by left.
  - destruct (String.eqb k "tags"); [apply IH|].
    destruct (raw_get raw k) as [v|]; [|done].
    destruct (process_field_for_images (py_str v) md_dir)
      as [[content media]|] eqn:Himg; [|by destruct v].
    intros Hrun p Hp.
    assert (Hrun' : populate_fields md_dir raw items
                      (<[f := content]> cf) (cm ∪ media)
                    = LoopDone cf' cm') by (by destruct v).
    destruct (IH _ _ _ _ Hrun' p Hp) as [[?|?]%elem_of_union|?];
      [by left| |by right].
    right. by exists (py_str v), content, media.
Qed.

(** Every media path of a block is a file that a lookup relative to the
    directory of the document found. *)
Lemma process_block_media (model_def : AnkiModelDefinition) (md_dir : path)
    (rel default_deck : string) (sff : option string) (body : string)
    (c : card) (media : gset string) (p : string) :
  process_block model_def md_dir rel default_deck sff body
  = Extracted c media →
  p ∈ media →
  ∃ src, lookup_image md_dir src = IsFile p
         ∧ src ≠ "" ∧ remote_scheme src = false.
Proof.
  intros (raw & fm & cf & _ & _ & Hloop & _)%process_block_extracted Hp.
  destruct (populate_fields_media _ _ _ _ _ _ _ Hloop p Hp)
    as [?|(text & out & m & Himg & Hm)]; [set_solver|].
  destruct (process_field_for_images_media _ _ _ _ _ Himg Hm)
    as (_ & _ & src & _ & _ & _ & ? & ? & ?).
  by exists src.
Qed.

Lemma find_anki_cards_in_file_media (filepath root_dir : path)
    (model_def : AnkiModelDefinition) (cards : list card)
    (media : gset string) (p : string) :
  find_anki_cards_in_file filepath root_dir model_def = Some (cards, media) →
  p ∈ media →
  ∃ src, lookup_image (parent filepath) src = IsFile p
         ∧ src ≠ "" ∧ remote_scheme src = false.
Proof.
  unfold find_anki_cards_in_file.
  destruct (calculate_deck_name root_dir filepath) as [dd|]; [|done].
  destruct (relative_to filepath root_dir) as [rel|]; [|done]. simpl.
  destruct (read_text filepath) as [content|];
    [|intros [= <- <-]; set_solver].
  rewrite process_blocks_outcomes. intros [= <- <-].
  rewrite union_empty_l_L.
  intros (X & (o & -> & (body & -> & _)%list_elem_of_fmap)%list_elem_of_fmap
          & Hp)%elem_of_union_list.
  destruct (process_block _ _ _ _ _ body) as [why|c cm] eqn:Hb;
    simpl in Hp; [set_solver|].
  by eapply process_block_media.
Qed.

(** The scan gathers the cards of the files in the order of the listing
    and the media of all of them; a file whose extraction raises gives
    nothing. *)
Lemma scan_files_outcomes (root_path : path)
    (model_def : AnkiModelDefinition) (md_files : list path) :
  ∀ (all_cards : list card) (all_media : gset string),
  scan_files root_path model_def md_files all_cards all_media
  = (all_cards
     ++ concat ((λ f, (default ([], ∅)
                         (find_anki_cards_in_file f root_path model_def)).1)
                <$> md_files),
     all_media
     ∪ ⋃ ((λ f, (default ([], ∅)
                   (find_anki_cards_in_file f root_path model_def)).2)
          <$> md_files)).
Proof.
  induction md_files as [|f md_files IH]; intros all_cards all_media; simpl.
  - by rewrite app_nil_r, union_empty_r_L.
  - destruct (find_anki_cards_in_file f root_path model_def)
      as [[file_cards file_media]|]; rewrite IH; simpl.
    + by rewrite <- app_assoc, union_assoc_L.
    + by rewrite union_empty_l_L.
Qed.

(** X12. Every media path of the package that a run writes is an
    existing file: a lookup relative to the directory of one of the
    scanned documents found it, for a src that is not remote. *)
Theorem package_media_are_files (args : CliArgs) (events : list event)
    (decks : list Deck) (media : gset string) (out p : string) :
  _main args = Returned events →
  WritePackage decks media out ∈ events →
  p ∈ media →
  ∃ file src,
    file ∈ rglob_md (notes_directory args)
    ∧ lookup_image (parent file) src = IsFile p
    ∧ src ≠ "" ∧ remote_scheme src = false.
Proof.
  unfold _main.
  destruct (load_and_validate_model _) as [model_def|]; [|done].
  destruct (is_dir _); [|done].
  rewrite scan_files_outcomes. simpl.
  destruct (concat _) as [|c cards] eqn:Hcards.
  - intros [= <-] Hw. exfalso. revert Hw.
    rewrite !elem_of_cons. by intros [?|[?|?%elem_of_nil]].
  - destruct (generate_anki_package _ _ _ _) as [events'|] eqn:Hgen; [|done].
    intros [= <-] Hw.
    destruct (generate_writes_the_decks _ _ _ _ _ _ _ _ Hgen Hw)
      as (_ & -> & _).
    rewrite union_empty_l_L.
    intros (X & (f & -> & Hf)%list_elem_of_fmap & Hp)%elem_of_union_list.
    destruct (find_anki_cards_in_file f _ model_def)
      as [[file_cards file_media]|] eqn:Hfile; simpl in Hp; [|set_solver].
    destruct (find_anki_cards_in_file_media _ _ _ _ _ _ Hfile Hp)
      as (src & ? & ? & ?).
    by exists f, src.
Qed.

End RunMedia.

Lemma package_media_are_files_witness :
  ∃ events decks,
    _main (H := picture_world) sample_args = Returned events
    ∧ WritePackage decks {["/notes/img/pic.png"]} "output.apkg" ∈ events
    ∧ ∃ file src,
        file ∈ rglob_md (World := picture_world) (notes_directory sample_args)
        ∧ lookup_image (World := picture_world) (parent file) src
          = IsFile "/notes/img/pic.png"
        ∧ src ≠ "" ∧ remote_scheme src = false.
Proof.
  assert (Hrun : ∃ events,
            _main (H := picture_world) sample_args = Returned events
            ∧ ∃ decks,
                WritePackage decks {["/notes/img/pic.png"]} "output.apkg"
                ∈ events).
  { eexists. split; [by vm_compute|].
    eexists. do 4 right. left. }
  destruct Hrun as (events & Hrun & decks & Hw).
  assert (Hin : "/notes/img/pic.png"
                ∈ ({["/notes/img/pic.png"]} : gset string)).
  { by apply elem_of_singleton. }
  exists events, decks. split_and!; [exact Hrun|exact Hw|].
  exact (package_media_are_files (H := picture_world) _ _ _ _ _ _
           Hrun Hw Hin).
Defined.

(** *** The decks of a package *)

Lemma key_eqb_sym (a b : yaml) : key_eqb a b = key_eqb b a.
Proof.
  destruct a, b; simpl; try done;
    try apply Z.eqb_sym; try apply String.eqb_sym.
Qed.

Lemma key_eqb_trans (a b c : yaml) :
  key_eqb a b = true → key_eqb b c = true → key_eqb a c = true.
Proof.
  destruct a, b, c; simpl; try done;
    rewrite ?Z.eqb_eq, ?String.eqb_eq; congruence.
Qed.

Lemma has_deck_false (decks : list Deck) (name : yaml) (d : Deck) :
  has_deck decks name = false → d ∈ decks →
  key_eqb (deck_name d) name = false.
Proof.
  unfold has_deck. induction decks as [|d1 decks IH]; simpl;
    [by intros _ ?%elem_of_nil|].
  intros [? ?]%orb_false_iff [->|?]%elem_of_cons; [done|by apply IH].
Qed.

Lemma has_deck_true (decks : list Deck) (name : yaml) :
  has_deck decks name = true →
  ∃ d, d ∈ decks ∧ key_eqb (deck_name d) name = true.
Proof.
  unfold has_deck. induction decks as [|d1 decks IH]; simpl; [done|].
  intros [?|Hd]%orb_true_iff; [exists d1; split; [left|done]|].
  destruct (IH Hd) as (d & ? & ?). exists d. split; [by right|done].
Qed.

Lemma has_deck_elem (decks : list Deck) (name : yaml) (d : Deck) :
  d ∈ decks → key_eqb (deck_name d) name = true →
  has_deck decks name = true.
Proof.
  unfold has_deck. induction decks as [|d1 decks IH]; simpl;
    [by intros ?%elem_of_nil|].
  intros [->|?]%elem_of_cons Hk; apply orb_true_iff; [by left|].
  right. by apply IH.
Qed.

Lemma distinct_names_tail (d : Deck) (decks : list Deck) :
  distinct_names (d :: decks) → distinct_names decks.
Proof.
  intros Hd i j di dj Hi Hj Hk.
  by injection (Hd (S i) (S j) di dj Hi Hj Hk).
Qed.

(** With distinct names, a note goes to the one deck of its name. *)
Lemma add_note_fmap (decks : list Deck) (name : yaml) (note : Note) :
  distinct_names decks →
  add_note decks name note
  = (λ d, if key_eqb (deck_name d) name
          then {| deck_id := deck_id d; deck_name := deck_name d;
                  deck_notes := deck_notes d ++ [note] |}
          else d) <$> decks.
Proof.
  induction decks as [|d1 decks IH]; intros Hd; simpl; [done|].
  destruct (key_eqb (deck_name d1) name) eqn:Hk.
  - f_equal. rewrite <- (list_fmap_id decks) at 1.
    apply list_fmap_ext. intros j d Hj. simpl.
    destruct (key_eqb (deck_name d) name) eqn:Hk'; [|done].
    assert (Hsame : key_eqb (deck_name d1) (deck_name d) = true).
    { apply (key_eqb_trans _ name); [done|]. by rewrite key_eqb_sym. }
    by specialize (Hd 0 (S j) d1 d eq_refl Hj Hsame).
  - f_equal. apply IH. by eapply distinct_names_tail.
Qed.

Section Grouping.
Context `{World} (anki_model : genanki_Model) (deck_id_base : Z).
Implicit Types (decks : list Deck) (c : card) (done : list card).

Lemma filter_none {A : Type} (f : A → bool) (l : list A) :
  (∀ x, x ∈ l → f x = false) → List.filter f l = [].
Proof.
  induction l as [|x l IH]; intros Hl; simpl; [done|].
  rewrite (Hl x) by left. apply IH. intros y ?. apply Hl. by right.
Qed.

(** The deck of a card is there when its note is made. *)
Lemma grouped_ensure_deck done decks c :
  hashable (c_deck c) = true →
  grouped anki_model deck_id_base done decks →
  let decks1 :=
    if has_deck decks (c_deck c) then decks
    else decks ++ [{| deck_id :=
                        (deck_id_base
                         + Z.abs (py_hash (c_deck c)) `mod` 100000000)%Z;
                      deck_name := c_deck c; deck_notes := [] |}] in
  distinct_names decks1
  ∧ has_deck decks1 (c_deck c) = true
  ∧ (∀ c', c' ∈ done → has_deck decks1 (c_deck c') = true)
  ∧ ∀ d, d ∈ decks1 →
      (∃ c', c' ∈ done ++ [c] ∧ deck_name d = c_deck c')
      ∧ deck_id d
        = (deck_id_base + Z.abs (py_hash (deck_name d)) `mod` 100000000)%Z
      ∧ deck_notes d
        = make_note anki_model <$> List.filter (lands_in anki_model d) done.
Proof.
  intros Hh (Hdist & Hhas & Hdecks). simpl.
  destruct (has_deck decks (c_deck c)) eqn:Hd.
  - split_and!; [done|done|done|].
    intros d Hin. destruct (Hdecks d Hin) as ((c' & ? & ?) & ? & ?).
    split_and!; [|done|done]. exists c'. split; [|done].
    apply elem_of_app. by left.
  - split_and!.
    + intros i j di dj Hi Hj Hk.
      apply lookup_snoc_Some in Hi as [[Hi1 Hi2]|[-> <-]];
        apply lookup_snoc_Some in Hj as [[Hj1 Hj2]|[-> <-]].
      * by apply (Hdist i j di dj).
      * simpl in Hk. apply list_elem_of_lookup_2 in Hi2.
        by rewrite (has_deck_false _ _ _ Hd Hi2) in Hk.
      * simpl in Hk. apply list_elem_of_lookup_2 in Hj2.
        rewrite key_eqb_sym in Hk.
        by rewrite (has_deck_false _ _ _ Hd Hj2) in Hk.
      * done.
    + apply has_deck_snoc. simpl. by apply key_eqb_refl.
    + intros c' Hc'. destruct (has_deck_true _ _ (Hhas c' Hc'))
        as (d & Hin & Hk).
      apply (has_deck_elem _ _ d); [|done]. apply elem_of_app. by left.
    + intros d [Hin| ->%list_elem_of_singleton]%elem_of_app.
      * destruct (Hdecks d Hin) as ((c' & ? & ?) & ? & ?).
        split_and!; [|done|done]. exists c'. split; [|done].
        apply elem_of_app. by left.
      * simpl. split_and!; [|done|].
        -- exists c. split; [|done]. apply elem_of_app. right. left.
        -- rewrite filter_none; [done|]. intros c' Hc'.
           unfold lands_in. simpl.
           destruct (key_eqb (c_deck c) (c_deck c')) eqn:Hk; [|done].
           destruct (has_deck_true _ _ (Hhas c' Hc')) as (d & Hin & Hk').
           assert (Hsame : key_eqb (deck_name d) (c_deck c) = true).
           { apply (key_eqb_trans _ (c_deck c')); [done|].
             by rewrite key_eqb_sym. }
           by rewrite (has_deck_false _ _ _ Hd Hin) in Hsame.
Qed.

Lemma has_deck_fmap (f : Deck → Deck) decks (name : yaml) :
  (∀ d, deck_name (f d) = deck_name d) →
  has_deck (f <$> decks) name = has_deck decks name.
Proof.
  intros Hf. unfold has_deck.
  induction decks as [|d decks IH]; [done|].
  rewrite fmap_cons. cbn [existsb]. by rewrite Hf, IH.
Qed.

(** The note of the card goes to that deck, if it is accepted. *)
Lemma grouped_add_note done decks1 c :
  distinct_names decks1 →
  has_deck decks1 (c_deck c) = true →
  (∀ c', c' ∈ done → has_deck decks1 (c_deck c') = true) →
  (∀ d, d ∈ decks1 →
     (∃ c', c' ∈ done ++ [c] ∧ deck_name d = c_deck c')
     ∧ deck_id d
       = (deck_id_base + Z.abs (py_hash (deck_name d)) `mod` 100000000)%Z
     ∧ deck_notes d
       = make_note anki_model <$> List.filter (lands_in anki_model d) done) →
  grouped anki_model deck_id_base (done ++ [c])
    (if note_accepted (make_note anki_model c)
     then add_note decks1 (c_deck c) (make_note anki_model c)
     else decks1).
Proof.
  intros Hdist Hhas1 Hhas Hdecks.
  assert (Hcards : ∀ c', c' ∈ done ++ [c] →
                     has_deck decks1 (c_deck c') = true).
  { intros c' [?| ->%list_elem_of_singleton]%elem_of_app; [by apply Hhas|done]. }
  destruct (note_accepted (make_note anki_model c)) eqn:Hacc.
  - rewrite add_note_fmap by done.
    set (f := λ d : Deck, if key_eqb (deck_name d) (c_deck c) then _ else d).
    assert (Hf : ∀ d, deck_name (f d) = deck_name d
                      ∧ deck_id (f d) = deck_id d).
    { intros d. unfold f. by destruct (key_eqb (deck_name d) (c_deck c)). }
    split_and!.
    + intros i j di dj. rewrite !list_lookup_fmap.
      intros (di0 & Hi & ->)%fmap_Some (dj0 & Hj & ->)%fmap_Some.
      rewrite (proj1 (Hf di0)), (proj1 (Hf dj0)). by apply Hdist.
    + intros c' Hc'. rewrite has_deck_fmap by apply Hf. by apply Hcards.
    + intros d2 (d & -> & Hin)%list_elem_of_fmap.
      destruct (Hdecks d Hin) as (Hcard & Hid & Hnotes).
      rewrite (proj1 (Hf d)), (proj2 (Hf d)). split_and!; [done|done|].
      rewrite List.filter_app, fmap_app. unfold f, lands_in in *.
      destruct (key_eqb (deck_name d) (c_deck c)) eqn:Hk; simpl.
      * by rewrite Hk, Hacc, Hnotes.
      * by rewrite Hk, Hnotes, app_nil_r.
  - split_and!; [done|done|].
    intros d Hin. destruct (Hdecks d Hin) as (Hcard & Hid & Hnotes).
    split_and!; [done|done|].
    rewrite List.filter_app, fmap_app. unfold lands_in in *. simpl.
    by rewrite Hacc, andb_false_r, Hnotes, app_nil_r.
Qed.

(** The loop over the cards keeps the decks grouped. *)
Lemma add_cards_grouped (rest : list card) :
  ∀ done decks (log : list event) decks' log',
  add_cards anki_model deck_id_base rest decks log = Some (decks', log') →
  grouped anki_model deck_id_base done decks →
  grouped anki_model deck_id_base (done ++ rest) decks'.
Proof.
  induction rest as [|c rest IH]; intros done decks log decks' log'.
  - simpl. intros [= <- <-]. by rewrite app_nil_r.
  - simpl. destruct (hashable (c_deck c)) eqn:Hh; [|done].
    intros Hrun Hg.
    pose proof (grouped_ensure_deck done decks c Hh Hg) as H1.
    cbv zeta in H1.
    replace (done ++ c :: rest) with ((done ++ [c]) ++ rest)
      by (by rewrite <- app_assoc).
    destruct (has_deck decks (c_deck c));
      destruct H1 as (Hdist & Hhas1 & Hhas & Hdecks);
      pose proof (grouped_add_note _ _ _ Hdist Hhas1 Hhas Hdecks) as H2;
      destruct (note_accepted (make_note anki_model c));
      by eapply IH.
Qed.


End Grouping.

Section PackageDecks.
Context `{World}.

(** The package that a run writes is the one the loop over the cards
    built from the deck id base of the model. *)
Lemma generate_builds_decks (cards : list card) (media : gset string)
    (anki_model : genanki_Model) (out : string) (events : list event)
    (decks : list Deck) (m : gset string) (f : string) :
  generate_anki_package cards media anki_model out = Some events →
  WritePackage decks m f ∈ events →
  ∃ log,
    add_cards anki_model
      (2000000000
       + Z.abs (py_hash (YStr (gm_name anki_model))) `mod` 500000000)
      cards [] [Log Info "Generating Anki package"]
    = Some (decks, log).
Proof.
  unfold generate_anki_package.
  destruct (add_cards _ _ _ _ _) as [[decks' log]|] eqn:Hrun; [|done].
  simpl. pose proof (add_cards_spec _ _ _ _ _ _ _ Hrun) as (_ & Hlog & _).
  assert (Hnw : WritePackage decks m f ∉ log).
  { intros Hin. destruct (Hlog _ Hin) as [Hin'|[]].
    by apply list_elem_of_singleton in Hin'. }
  destruct decks' as [|d ds]; intros Hev Hw.
  - injection Hev as <-. apply elem_of_app in Hw as [?|Hw]; [done|].
    by apply list_elem_of_singleton in Hw.
  - injection Hev as <-.
    assert (Hw' : WritePackage decks m f
                  = WritePackage (d :: ds) media out).
    { case_decide; rewrite !elem_of_app, !list_elem_of_singleton in Hw;
        destruct (write_succeeds out); naive_solver. }
    injection Hw' as -> -> ->. by exists log.
Qed.

(** X13. The package that is written groups the cards by deck: no two
    of its decks have names that are equal as dict keys, every card has
    the deck of its name, every deck was created for one of the cards
    with an id between 2000000000 and 2600000000, and holds the notes of
    the accepted cards of its name, in the order of the cards. *)
Theorem package_groups_cards_by_deck (cards : list card)
    (media : gset string) (anki_model : genanki_Model) (out : string)
    (events : list event) (decks : list Deck) (m : gset string)
    (f : string) :
  generate_anki_package cards media anki_model out = Some events →
  WritePackage decks m f ∈ events →
  distinct_names decks
  ∧ (∀ c, c ∈ cards → has_deck decks (c_deck c) = true)
  ∧ ∀ d, d ∈ decks →
      (∃ c, c ∈ cards ∧ deck_name d = c_deck c)
      ∧ (2000000000 ≤ deck_id d < 2600000000)%Z
      ∧ deck_notes d
        = make_note anki_model <$> List.filter (lands_in anki_model d) cards.
Proof.
  intros Hgen Hw.
  destruct (generate_builds_decks _ _ _ _ _ _ _ _ Hgen Hw) as (log & Hadd).
  apply (add_cards_grouped _ _ _ []) in Hadd as (Hdist & Hhas & Hdecks).
  - split_and!; [done|done|]. intros d Hd.
    destruct (Hdecks d Hd) as (Hc & Hid & Hnotes).
    split; [done|]. split; [|done]. rewrite Hid.
    pose proof (Z.mod_pos_bound
                  (Z.abs (py_hash (YStr (gm_name anki_model)))) 500000000).
    pose proof (Z.mod_pos_bound
                  (Z.abs (py_hash (deck_name d))) 100000000).
    lia.
  - split_and!.
    + intros i j di dj Hi. by rewrite lookup_nil in Hi.
    + by intros c ?%elem_of_nil.
    + by intros d ?%elem_of_nil.
Qed.


End PackageDecks.

Lemma package_groups_cards_by_deck_witness :
  generate_anki_package (H := sample_world) [python_card] ∅
    (create_genanki_model sample_model_definition) "output.apkg"
  = Some python_events
  ∧ WritePackage python_decks ∅ "output.apkg" ∈ python_events
  ∧ distinct_names python_decks
  ∧ ∀ d, d ∈ python_decks →
      (2000000000 ≤ deck_id d < 2600000000)%Z
      ∧ deck_notes d
        = make_note (H := sample_world)
            (create_genanki_model sample_model_definition)
          <$> List.filter
                (lands_in (H := sample_world)
                   (create_genanki_model sample_model_definition) d)
                [python_card].
Proof.
  assert (Hw : WritePackage python_decks ∅ "output.apkg" ∈ python_events).
  { do 3 right. left. }
  split_and!; [exact python_package|exact Hw| |].
  - exact (proj1 (package_groups_cards_by_deck (H := sample_world)
                    _ _ _ _ _ _ _ _ python_package Hw)).
  - intros d Hd.
    destruct (proj2 (proj2 (package_groups_cards_by_deck (H := sample_world)
                              _ _ _ _ _ _ _ _ python_package Hw)) d Hd)
      as (_ & Hid & Hnotes).
    exact (conj Hid Hnotes).
Defined.


(** *** The fields of a card *)

Section CardFields.
Context `{World}.

(** X15. The fields that an extracted card has are exactly the fields
    mapped from a key other than "tags", and the source-file field if the
    schema has one; the source-file field holds the relative path of the
    document, also when a key is mapped to it. *)
Theorem extracted_card_fields (model_def : AnkiModelDefinition)
    (md_dir : path) (rel default_deck : string) (sff : option string)
    (body : string) (c : card) (media : gset string) :
  process_block model_def md_dir rel default_deck sff body
  = Extracted c media →
  ∃ field_map,
    yaml_field_map model_def = Some field_map
    ∧ (∀ f, is_Some (c_fields c !! f)
            ↔ (∃ k, (k, f) ∈ field_map ∧ k ≠ "tags")
              ∨ (sff = Some f ∧ f ≠ ""))
    ∧ (∀ n, sff = Some n → n ≠ "" → c_fields c !! n = Some rel).
Proof.
  intros (raw & fm & cf & Hload & Hfm & Hloop & Hfields & _)
    %process_block_extracted.
  destruct (populate_fields_done _ _ _ _ _ _ _ Hloop) as (Hall & _ & Horig).
  assert (Hcf : ∀ f, is_Some (cf !! f) ↔ ∃ k, (k, f) ∈ fm ∧ k ≠ "tags").
  { intros f. split.
    - intros [content Hf].
      destruct (Horig _ _ Hf) as [He|(k & v & m & ? & ? & _)];
        [by rewrite lookup_empty in He|by exists k].
    - intros (k & Hin & Hk). by destruct (Hall _ _ Hin Hk). }
  exists fm. split; [done|]. rewrite Hfields. split.
  - intros f. destruct sff as [n|]; [|rewrite Hcf; naive_solver].
    destruct (String.eqb_spec n "") as [->|Hn]; [rewrite Hcf; naive_solver|].
    destruct (decide (n = f)) as [->|Hnf].
    + rewrite lookup_insert_eq. split; [by right|by eexists].
    + rewrite lookup_insert_ne by done. rewrite Hcf. naive_solver.
  - intros n -> Hn. destruct (String.eqb_spec n "") as [?|_]; [done|].
    by rewrite lookup_insert_eq.
Qed.

End CardFields.

Lemma extracted_card_fields_witness :
  process_block (H := sample_world) sample_model_definition ["notes"]
    "test.md" "notes" (Some "SourceFile") python_block
  = Extracted python_card ∅
  ∧ (∀ f, is_Some (c_fields python_card !! f)
          ↔ (∃ k, (k, f) ∈ [("q", "Question"); ("a", "Answer")]
                  ∧ k ≠ "tags")
            ∨ (Some "SourceFile" = Some f ∧ f ≠ ""))
  ∧ c_fields python_card !! "SourceFile" = Some "test.md".
Proof.
  split; [exact python_block_card|].
  destruct (extracted_card_fields (H := sample_world) _ _ _ _ _ _ _ _
              python_block_card) as (fm & Hfm & Hdom & Hsource).
  injection Hfm as <-. split; [exact Hdom|].
  by apply Hsource.
Defined.

(** *** How a run ends *)

Section RunOutcomes.
Context `{World}.



End RunOutcomes.


Lemma TEMPLATE_FIELD_RE_reference_witness :
  TEMPLATE_FIELD_RE ("{{" +:+ "#Extra" +:+ "}}" +:+ "{{Extra}}{{/Extra}}")
  = Some ("Extra", "{{Extra}}{{/Extra}}").
Proof.
  exact (TEMPLATE_FIELD_RE_reference "Extra" "{{Extra}}{{/Extra}}" "#"
           eq_refl).
Defined.
